(** * net-rewire: packet classifier and tunnel framing

    A shallow embedding of

    - [pkt_parse] (macos/NetRewirePacketTunnel/pktparse.c), the IPv4/TCP
      header classifier, and
    - [handle_client] (ubuntu/tunnel_server.c), the per-client forwarding
      session with its length-prefixed framing,

    together with the properties the specification states about them. *)

From Stdlib Require Import ZArith List Bool Lia.
Import ListNotations.
Local Open Scope Z_scope.

(** ** Host byte order

    Multi-byte objects ([uint16_t], [uint32_t]) are modelled by the bytes they
    occupy in memory; the value the program computes with depends on the byte
    order of the host, which is a parameter of the model. *)

Module ByteOrder.

Inductive byte_order : Set := LittleEndian | BigEndian.

(** Little-endian combination of a byte string into a number. *)
Fixpoint le_combine (bs : list Z) : Z :=
  match bs with
  | [] => 0
  | b :: rest => b + 256 * le_combine rest
  end.

(** Little-endian split of a number into [n] bytes. *)
Fixpoint le_split (n : nat) (v : Z) : list Z :=
  match n with
  | O => []
  | S n' => v mod 256 :: le_split n' (v / 256)
  end.

(** The value a host of order [o] sees in an object whose storage is [bs]. *)
Definition load (o : byte_order) (bs : list Z) : Z :=
  match o with
  | LittleEndian => le_combine bs
  | BigEndian => le_combine (rev bs)
  end.

(** The storage a host of order [o] gives to the [n]-byte value [v]. *)
Definition store (o : byte_order) (n : nat) (v : Z) : list Z :=
  match o with
  | LittleEndian => le_split n v
  | BigEndian => rev (le_split n v)
  end.

(** Byte swaps, as the value whose storage is the reversed storage. *)
Definition bswap16 (x : Z) : Z := le_combine (rev (le_split 2 x)).
Definition bswap32 (x : Z) : Z := le_combine (rev (le_split 4 x)).

(** [uint16_t htons(uint16_t)], [uint32_t htonl(uint32_t)] and
    [uint32_t ntohl(uint32_t)]: a byte swap on a little-endian host, the
    identity on the 16 or 32 bits on a big-endian one. *)
Definition htons (o : byte_order) (x : Z) : Z :=
  match o with LittleEndian => bswap16 x | BigEndian => x mod 2 ^ 16 end.

Definition htonl (o : byte_order) (x : Z) : Z :=
  match o with LittleEndian => bswap32 x | BigEndian => x mod 2 ^ 32 end.

Definition ntohl (o : byte_order) (x : Z) : Z :=
  match o with LittleEndian => bswap32 x | BigEndian => x mod 2 ^ 32 end.

(** Network (big-endian) reading of a byte string. *)
Definition be_decode (bs : list Z) : Z := le_combine (rev bs).

(** Network (big-endian) [n]-byte encoding of a number. *)
Definition be_encode (n : nat) (v : Z) : list Z := rev (le_split n v).

Definition is_byte (b : Z) : Prop := 0 <= b < 256.

(** Size of a byte string, as a C integer. *)
Definition nbytes (bs : list Z) : Z := Z.of_nat (length bs).

End ByteOrder.

Import ByteOrder.

(** ** pktparse.c *)

Module PktParse.

(** [struct pkt_info] of pktparse.h. *)
Record pkt_info : Set := mk_pkt_info {
  is_ipv4 : Z;
  is_tcp : Z;
  ip_src : Z;
  ip_dst : Z;
  tcp_src : Z;
  tcp_dst : Z;
  ip_header_len : Z;
  tcp_header_len : Z
}.

(** [memset(info, 0, sizeof( *info))]. *)
Definition zero_info : pkt_info := mk_pkt_info 0 0 0 0 0 0 0 0.

(** Layout constants of <netinet/ip.h> and <netinet/tcp.h>: both headers are
    20 bytes without options; the version and header length share byte 0 of
    the IP header (version in the high nibble), the protocol is byte 9, the
    addresses are bytes 12..15 and 16..19; the TCP ports are bytes 0..1 and
    2..3 of the TCP header and the data offset is the high nibble of
    byte 12. *)
Definition sizeof_ip : Z := 20.
Definition sizeof_tcphdr : Z := 20.
Definition IPPROTO_TCP : Z := 6.

Definition off_ip_vhl : Z := 0.
Definition off_ip_p : Z := 9.
Definition off_ip_src : Z := 12.
Definition off_ip_dst : Z := 16.
Definition off_th_sport : Z := 0.
Definition off_th_dport : Z := 2.
Definition off_th_off : Z := 12.

Definition high_nibble (b : Z) : Z := Z.land (Z.shiftr b 4) 15.
Definition low_nibble (b : Z) : Z := Z.land b 15.

(** Memory accesses are checked: reading at an offset that is not below the
    length handed to the parser is [Overread]; reading below that length where
    the caller supplied no byte is [Unmapped]. *)
Inductive access (A : Type) : Type :=
| Ok (a : A)
| Overread (off : Z)
| Unmapped (off : Z).

Arguments Ok {A} a.
Arguments Overread {A} off.
Arguments Unmapped {A} off.

Definition bind {A B : Type} (m : access A) (k : A -> access B) : access B :=
  match m with
  | Ok a => k a
  | Overread off => Overread off
  | Unmapped off => Unmapped off
  end.

Notation "x <- m ;; k" := (bind m (fun x => k))
  (at level 61, m at next level, right associativity).

Section Reads.
Variable buf : list Z.
Variable len : Z.

Definition read_u8 (off : Z) : access Z :=
  if (0 <=? off) && (off <? len) then
    match nth_error buf (Z.to_nat off) with
    | Some b => Ok b
    | None => Unmapped off
    end
  else Overread off.

(** The storage of a 16-bit field. *)
Definition read_2 (off : Z) : access (list Z) :=
  b0 <- read_u8 off ;;
  b1 <- read_u8 (off + 1) ;;
  Ok [b0; b1].

(** The storage of a 32-bit field. *)
Definition read_4 (off : Z) : access (list Z) :=
  b0 <- read_u8 off ;;
  b1 <- read_u8 (off + 1) ;;
  b2 <- read_u8 (off + 2) ;;
  b3 <- read_u8 (off + 3) ;;
  Ok [b0; b1; b2; b3].
End Reads.

Section Parser.
Variable host : byte_order.

(** [int pkt_parse(const uint8_t *buf, size_t len, struct pkt_info *info)]:
    the returned [int] and the final contents of [*info].  [ihl] is at most
    60, so none of the comparisons with [len] wraps. *)
Definition pkt_parse (buf : list Z) (len : Z) : access (Z * pkt_info) :=
  let info := zero_info in
  if len <? sizeof_ip then Ok (0, info) else
  vhl <- read_u8 buf len off_ip_vhl ;;
  if negb (high_nibble vhl =? 4) then Ok (0, info) else
  hl <- read_u8 buf len off_ip_vhl ;;
  let ihl := low_nibble hl * 4 in
  if len <? ihl then Ok (0, info) else
  src <- read_4 buf len off_ip_src ;;
  dst <- read_4 buf len off_ip_dst ;;
  let info :=
    mk_pkt_info 1 0 (load host src) (load host dst) 0 0 ihl 0 in
  p <- read_u8 buf len off_ip_p ;;
  if negb (p =? IPPROTO_TCP) then Ok (1, info) else
  if len <? ihl + sizeof_tcphdr then Ok (1, info) else
  doff <- read_u8 buf len (ihl + off_th_off) ;;
  sport <- read_2 buf len (ihl + off_th_sport) ;;
  dport <- read_2 buf len (ihl + off_th_dport) ;;
  Ok (1, mk_pkt_info 1 1 (ip_src info) (ip_dst info)
           (load host sport) (load host dport)
           ihl (high_nibble doff * 4)).
End Parser.

(** Header fields of a buffer, as the wire format defines them. *)
Definition byte_at (buf : list Z) (off : Z) : Z := nth (Z.to_nat off) buf 0.
Definition ip_version (buf : list Z) : Z := high_nibble (byte_at buf off_ip_vhl).
Definition ip_hl_field (buf : list Z) : Z := low_nibble (byte_at buf off_ip_vhl).
Definition ip_protocol (buf : list Z) : Z := byte_at buf off_ip_p.
Definition tcp_off_field (buf : list Z) : Z :=
  high_nibble (byte_at buf (ip_hl_field buf * 4 + off_th_off)).

(** The packet of pktparse_test.c. *)
Definition test_packet : list Z :=
  [ 0x45; 0x00; 0x00; 0x3c; 0x00; 0x01; 0x00; 0x00; 0x40; 0x06; 0x00; 0x00;
    0xc0; 0xa8; 0x01; 0x01;
    0xc0; 0xa8; 0x01; 0x02;
    0x04; 0xd2; 0x00; 0x19;
    0x00; 0x00; 0x00; 0x00; 0x00; 0x00; 0x00; 0x00;
    0x50; 0x02; 0x20; 0x00; 0x00; 0x00; 0x00; 0x00 ].

(** The UDP packet of pktparse_test.c. *)
Definition udp_packet : list Z :=
  [ 0x45; 0x00; 0x00; 0x3c; 0x00; 0x01; 0x00; 0x00; 0x40; 0x11; 0x00; 0x00;
    0xc0; 0xa8; 0x01; 0x01; 0xc0; 0xa8; 0x01; 0x02;
    0x00; 0x00; 0x00; 0x00; 0x00; 0x00; 0x00; 0x00 ].

(** A packet whose header-length fields are both zero: version 4, protocol
    TCP, everything else clear. *)
Definition zero_length_packet : list Z :=
  [ 0x40; 0; 0; 0; 0; 0; 0; 0; 0; 0x06; 0; 0; 0; 0; 0; 0; 0; 0; 0; 0 ].

End PktParse.

Import PktParse.

(** ** tunnel_server.c *)

Module TunnelServer.

Definition EINTR : Z := 4.
Definition EAGAIN : Z := 11.
Definition EWOULDBLOCK : Z := 11.

(** *** The environment of a session *)

(** What one [recv] on the client socket finds: bytes that have arrived, or a
    failure with its [errno].  A stream with no further event has been closed
    by the peer. *)
Inductive sock_event : Type :=
| Avail (bs : list Z)
| RecvError (e : Z).

(** How one [send] on the client socket is served: the kernel takes up to [k]
    bytes, or the call fails with [errno] [e]. *)
Inductive send_event : Type :=
| Accept (k : Z)
| SendError (e : Z).

(** What one [read] on the TUN descriptor finds. *)
Inductive tun_event : Type :=
| TunPacket (bs : list Z)
| TunError (e : Z).

(** Life cycle of a descriptor or of a heap block. *)
Inductive handle : Set := Unopened | Opened | Released | Misused.

Definition acquire (h : handle) : handle :=
  match h with Unopened => Opened | _ => Misused end.

Definition release (h : handle) : handle :=
  match h with Opened => Released | _ => Misused end.

Record world : Type := mk_world {
  running : Z;                   (* static volatile int running *)
  errno : Z;
  sock_in : list sock_event;     (* pending on client_fd *)
  sock_out : list send_event;    (* service of the coming sends *)
  tun_in : list tun_event;       (* pending on tun_fd *)
  recv_calls : list Z;           (* sizes requested by the recv calls made *)
  wire : list (list Z);          (* bytes sent to the client, per send *)
  tun_written : list (list Z);   (* buffers written to TUN, per write *)
  tun_fd : handle;
  client_fd : handle;
  client_mem : handle            (* the malloc'ed client_info_t *)
}.

Definition set_running (v : Z) (w : world) : world :=
  mk_world v (errno w) (sock_in w) (sock_out w) (tun_in w) (recv_calls w)
           (wire w) (tun_written w) (tun_fd w) (client_fd w) (client_mem w).

Definition set_errno (v : Z) (w : world) : world :=
  mk_world (running w) v (sock_in w) (sock_out w) (tun_in w) (recv_calls w)
           (wire w) (tun_written w) (tun_fd w) (client_fd w) (client_mem w).

Definition set_sock_in (v : list sock_event) (w : world) : world :=
  mk_world (running w) (errno w) v (sock_out w) (tun_in w) (recv_calls w)
           (wire w) (tun_written w) (tun_fd w) (client_fd w) (client_mem w).

Definition set_sock_out (v : list send_event) (w : world) : world :=
  mk_world (running w) (errno w) (sock_in w) v (tun_in w) (recv_calls w)
           (wire w) (tun_written w) (tun_fd w) (client_fd w) (client_mem w).

Definition set_tun_in (v : list tun_event) (w : world) : world :=
  mk_world (running w) (errno w) (sock_in w) (sock_out w) v (recv_calls w)
           (wire w) (tun_written w) (tun_fd w) (client_fd w) (client_mem w).

Definition log_recv (n : Z) (w : world) : world :=
  mk_world (running w) (errno w) (sock_in w) (sock_out w) (tun_in w)
           (recv_calls w ++ [n])
           (wire w) (tun_written w) (tun_fd w) (client_fd w) (client_mem w).

Definition put_wire (bs : list Z) (w : world) : world :=
  mk_world (running w) (errno w) (sock_in w) (sock_out w) (tun_in w)
           (recv_calls w) (wire w ++ [bs])
           (tun_written w) (tun_fd w) (client_fd w) (client_mem w).

Definition put_tun (bs : list Z) (w : world) : world :=
  mk_world (running w) (errno w) (sock_in w) (sock_out w) (tun_in w)
           (recv_calls w) (wire w) (tun_written w ++ [bs])
           (tun_fd w) (client_fd w) (client_mem w).

Definition set_tun_fd (h : handle) (w : world) : world :=
  mk_world (running w) (errno w) (sock_in w) (sock_out w) (tun_in w)
           (recv_calls w) (wire w) (tun_written w) h (client_fd w)
           (client_mem w).

Definition set_client_fd (h : handle) (w : world) : world :=
  mk_world (running w) (errno w) (sock_in w) (sock_out w) (tun_in w)
           (recv_calls w) (wire w) (tun_written w) (tun_fd w) h
           (client_mem w).

Definition set_client_mem (h : handle) (w : world) : world :=
  mk_world (running w) (errno w) (sock_in w) (sock_out w) (tun_in w)
           (recv_calls w) (wire w) (tun_written w) (tun_fd w) (client_fd w)
           h.

(** *** System calls *)

(** What stays pending after a receive took the front of a segment. *)
Definition requeue (left : list Z) (rest : list sock_event) : list sock_event :=
  match left with
  | [] => rest
  | _ => Avail left :: rest
  end.

(** [recv(client_fd, buf, n, 0)]: the return value, the bytes stored at the
    start of [buf], and the world afterwards.  A stream socket hands over what
    has arrived, up to [n] bytes. *)
Definition recv (n : Z) (w : world) : Z * list Z * world :=
  let w := log_recv n w in
  match sock_in w with
  | [] => (0, [], w)
  | Avail bs :: rest =>
      let got := firstn (Z.to_nat n) bs in
      let left := skipn (Z.to_nat n) bs in
      (nbytes got, got,
       set_sock_in (requeue left rest) w)
  | RecvError e :: rest => (-1, [], set_errno e (set_sock_in rest w))
  end.

(** [send(client_fd, data, len, 0)].  With no scheduled event the socket has
    room for the whole buffer. *)
Definition send (data : list Z) (w : world) : Z * world :=
  match sock_out w with
  | [] => (nbytes data, put_wire data w)
  | Accept k :: rest =>
      let sent := firstn (Z.to_nat k) data in
      (nbytes sent, put_wire sent (set_sock_out rest w))
  | SendError e :: rest => (-1, set_errno e (set_sock_out rest w))
  end.

(** [read(tun_fd, buf, n)]: one packet per call, cut to the buffer size.  With
    no scheduled event nothing is pending on the non-blocking descriptor. *)
Definition tun_read (n : Z) (w : world) : Z * list Z * world :=
  match tun_in w with
  | [] => (-1, [], set_errno EAGAIN w)
  | TunPacket bs :: rest =>
      let got := firstn (Z.to_nat n) bs in
      (nbytes got, got, set_tun_in rest w)
  | TunError e :: rest => (-1, [], set_errno e (set_tun_in rest w))
  end.

(** [write(tun_fd, buf, n)].  Its return value only selects the diagnostic
    that is printed; [tun_written] records the buffer handed to the call,
    and the [errno] of a failing write is not tracked. *)
Definition tun_write (data : list Z) (w : world) : world := put_tun data w.

Definition close_tun (w : world) : world := set_tun_fd (release (tun_fd w)) w.
Definition close_client (w : world) : world :=
  set_client_fd (release (client_fd w)) w.
Definition free_client (w : world) : world :=
  set_client_mem (release (client_mem w)) w.

(** Outcome of [select]: failure with its [errno], timeout, or readiness of
    the two descriptors. *)
Inductive select_result : Set :=
| SelError (e : Z)
| SelTimeout
| SelReady (client_ready tun_ready : bool).

(** What the environment decides for one turn of the forwarding loop: whether
    SIGINT or SIGTERM arrived before the loop test (that is, at any moment
    since the previous loop test, also while [select] was waiting, which then
    fails with EINTR in the turn before), the outcome of [select], and the
    bytes lying where [packet_length] is allocated. *)
Record iter_env : Type := mk_iter {
  sig : bool;
  sel : select_result;
  junk : list Z
}.

(** What the environment decides for the set-up of the TUN device: the
    values the four calls return, and the [errno] a failing [open] or [ioctl]
    leaves. *)
Record setup_env : Set := mk_setup {
  open_ret : Z;       (* open("/dev/net/tun", O_RDWR) *)
  ioctl_ret : Z;      (* ioctl(tun_fd, TUNSETIFF, &ifr) *)
  addr_ret : Z;       (* system("ip addr add ...") *)
  link_ret : Z;       (* system("ip link set ... up") *)
  open_errno : Z;     (* errno after a failed open *)
  ioctl_errno : Z     (* errno after a failed ioctl *)
}.

(** [select] returns the count of ready descriptors and rewrites [read_fds];
    on failure the set is left as [FD_SET] built it. *)
Definition select (r : select_result) (w : world) : Z * (bool * bool) * world :=
  match r with
  | SelError e => (-1, (true, true), set_errno e w)
  | SelTimeout => (0, (false, false), w)
  | SelReady c t => (Z.b2z c + Z.b2z t, (c, t), w)
  end.

Definition would_block (e : Z) : bool := (e =? EAGAIN) || (e =? EWOULDBLOCK).

(** *** The program *)

Definition signal_handler (w : world) : world := set_running 0 w.

Definition create_tun_device (s : setup_env) (w : world) : Z * world :=
  let tun := open_ret s in
  if tun <? 0 then (-1, set_errno (open_errno s) w)
  else
    let w := set_tun_fd (acquire (tun_fd w)) w in
    if ioctl_ret s <? 0 then (-1, close_tun (set_errno (ioctl_errno s) w))
    else (tun, w).

Definition configure_tun_device (s : setup_env) : Z :=
  if negb (addr_ret s =? 0) then -1
  else if negb (link_ret s =? 0) then -1
  else 0.

(** Control leaving a block of the loop body. *)
Inductive flow : Set := Fall | Continue | Break.

(** Storage of an object after [data] was received at its start. *)
Definition received_into (old data : list Z) : list Z :=
  data ++ skipn (length data) old.

Section Session.
Variable host : byte_order.

(** Lines 139-178: forward one packet from the client to TUN. *)
Definition client_to_tun (stack : list Z) (w : world) : flow * world :=
  let '(bytes_read, data, w) := recv 4 w in
  if bytes_read <=? 0 then (Break, w)
  else
    let packet_length := load host (received_into (firstn 4 stack) data) in
    let packet_length := ntohl host packet_length in
    if (packet_length >? 65535) || (packet_length =? 0) then (Continue, w)
    else
      let '(bytes_read, packet_buffer, w) := recv packet_length w in
      if bytes_read <=? 0 then (Continue, w)
      else (Fall, tun_write (firstn (Z.to_nat bytes_read) packet_buffer) w).

(** Lines 181-211: forward one packet from TUN to the client. *)
Definition tun_to_client (w : world) : flow * world :=
  let '(bytes_read, packet_buffer, w) := tun_read 65535 w in
  if bytes_read >? 0 then
    let packet_length := htonl host (bytes_read mod 2 ^ 32) in
    let '(bytes_sent, w) := send (store host 4 packet_length) w in
    if negb (bytes_sent =? 4) then
      if negb (would_block (errno w)) then (Break, w) else (Fall, w)
    else
      let '(bytes_sent, w) :=
        send (firstn (Z.to_nat bytes_read) packet_buffer) w in
      if bytes_sent <? 0 then
        if negb (would_block (errno w)) then (Break, w) else (Fall, w)
      else (Fall, w)
  else if (bytes_read <? 0) && negb (would_block (errno w)) then (Break, w)
  else (Fall, w).

(** One turn of the [while (running)] loop, after the loop test. *)
Definition loop_body (it : iter_env) (w : world) : flow * world :=
  let '(activity, (client_set, tun_set), w) := select (sel it) w in
  if (activity <? 0) && negb (errno w =? EINTR) then (Break, w)
  else if activity =? 0 then (Continue, w)
  else
    let '(f, w) :=
      if client_set then client_to_tun (junk it) w else (Fall, w) in
    match f with
    | Fall => if tun_set then tun_to_client w else (Fall, w)
    | _ => (f, w)
    end.

Inductive loop_result : Type :=
| Exited (w : world)      (* the loop was left *)
| Pending (w : world).    (* the loop waits for further events *)

Fixpoint forwarding_loop (its : list iter_env) (w : world) : loop_result :=
  match its with
  | [] => Pending w
  | it :: rest =>
      let w := if sig it then signal_handler w else w in
      if running w =? 0 then Exited w
      else
        match loop_body it w with
        | (Break, w') => Exited w'
        | (_, w') => forwarding_loop rest w'
        end
  end.

Inductive session_result : Type :=
| Returned (w : world)     (* handle_client has returned *)
| Forwarding (w : world).  (* the session is in its forwarding loop *)

Definition handle_client (s : setup_env) (its : list iter_env) (w : world)
  : session_result :=
  let '(tun, w) := create_tun_device s w in
  if tun <? 0 then Returned (free_client (close_client w))
  else if configure_tun_device s <? 0 then
    Returned (free_client (close_client (close_tun w)))
  else
    match forwarding_loop its w with
    | Exited w => Returned (free_client (close_client (close_tun w)))
    | Pending w => Forwarding w
    end.
End Session.

(** A session as [main] starts it: socket accepted, [client_info_t]
    allocated, no TUN device yet. *)
Definition fresh_session (w : world) : Prop :=
  client_fd w = Opened /\ client_mem w = Opened /\ tun_fd w = Unopened.

Definition initial_world (inp : list sock_event) (tun : list tun_event) : world :=
  mk_world 1 0 inp [] tun [] [] [] Unopened Opened Opened.

(** The handles of [w'] are in the state they have in [w]. *)
Definition same_handles (w w' : world) : Prop :=
  tun_fd w' = tun_fd w /\ client_fd w' = client_fd w /\
  client_mem w' = client_mem w.

(** *** The decode step as the specification words it *)

(** The bytes of a stream, whatever the segments they arrive in. *)
Definition stream_bytes (s : list sock_event) : list Z :=
  flat_map (fun e => match e with Avail bs => bs | RecvError _ => [] end) s.

(** "Read exactly 4 bytes for the prefix, looping over partial reads, then
    read exactly that many payload bytes, again looping over partial reads":
    the step hands to TUN the declared number of bytes that follow the
    prefix in the stream, or those there are when the stream ends before. *)
Definition decode_obtains_declared_payload
    (host : byte_order) (stack : list Z) (w : world) : Prop :=
  let bytes := stream_bytes (sock_in w) in
  let declared := be_decode (firstn 4 bytes) in
  4 < nbytes bytes -> 1 <= declared <= 65535 ->
  tun_written (snd (client_to_tun host stack w)) =
  tun_written w ++ [firstn (Z.to_nat declared) (skipn 4 bytes)].

(** A frame of three payload bytes whose payload arrives in two segments. *)
Definition split_payload_world : world :=
  initial_world [Avail [0; 0; 0; 3]; Avail [1]; Avail [2; 3]] [].

(** A frame of two payload bytes whose prefix arrives in two segments. *)
Definition split_prefix_world : world :=
  initial_world [Avail [0; 0]; Avail [0; 2; 7; 8]] [].

End TunnelServer.

Import TunnelServer.

(** ** tunnel_server.c: the accept loop *)

Module Server.

(** One accepted connection, as [main] leaves it: its socket, its
    [client_info_t] block, and whether a session thread was started on it. *)
Record conn : Set := mk_conn {
  conn_fd : handle;
  conn_mem : handle;
  conn_session : bool
}.

Record server : Set := mk_server {
  srv_running : Z;          (* static volatile int running *)
  listen_fd : handle;       (* server_fd *)
  conns : list conn         (* the connections accepted so far *)
}.

(** What the environment decides while the listening socket is set up. *)
Record boot_env : Set := mk_boot {
  socket_ret : Z;
  setsockopt_ret : Z;
  bind_ret : Z;
  listen_ret : Z
}.

(** What the environment decides for one turn of the accept loop: whether
    SIGINT or SIGTERM arrived before the loop test (that is, at any moment
    since the previous loop test, also while [accept] was blocked in the turn
    before, which that turn then still completes), the value of [accept],
    whether [malloc] returns a block, and the value of [pthread_create].  The
    [errno] of a failed [accept] only selects whether a diagnostic is
    printed. *)
Record accept_env : Set := mk_accept {
  acc_sig : bool;
  accept_ret : Z;
  malloc_ok : bool;
  pthread_ret : Z
}.

Definition srv_signal_handler (st : server) : server :=
  mk_server 0 (listen_fd st) (conns st).

Definition set_listen_fd (h : handle) (st : server) : server :=
  mk_server (srv_running st) h (conns st).

Definition close_server (st : server) : server :=
  set_listen_fd (release (listen_fd st)) st.

Definition add_conn (c : conn) (st : server) : server :=
  mk_server (srv_running st) (listen_fd st) (conns st ++ [c]).

(** Lines 278-311, one turn after the loop test.  Every path ends the turn;
    the connection is recorded in the state [main] leaves it in. *)
Definition accept_turn (a : accept_env) (st : server) : server :=
  let client_fd := accept_ret a in
  if client_fd <? 0 then st
  else
    let fd := acquire Unopened in
    if negb (malloc_ok a) then
      add_conn (mk_conn (release fd) Unopened false) st
    else
      let mem := acquire Unopened in
      if negb (pthread_ret a =? 0) then
        add_conn (mk_conn (release fd) (release mem) false) st
      else
        add_conn (mk_conn fd mem true) st.

Inductive accept_result : Set :=
| Stopped (st : server)     (* the accept loop was left *)
| Accepting (st : server).  (* the loop waits for further connections *)

Fixpoint accept_loop (accs : list accept_env) (st : server) : accept_result :=
  match accs with
  | [] => Accepting st
  | a :: rest =>
      let st := if acc_sig a then srv_signal_handler st else st in
      if srv_running st =? 0 then Stopped st
      else accept_loop rest (accept_turn a st)
  end.

Inductive main_result : Set :=
| Exit (code : Z) (st : server)   (* main has returned [code] *)
| Serving (st : server).          (* main is in its accept loop *)

(** [int main()]. *)
Definition main (b : boot_env) (accs : list accept_env) (st : server)
  : main_result :=
  let server_fd := socket_ret b in
  if server_fd <? 0 then Exit 1 st
  else
    let st := set_listen_fd (acquire (listen_fd st)) st in
    if setsockopt_ret b <? 0 then Exit 1 (close_server st)
    else if bind_ret b <? 0 then Exit 1 (close_server st)
    else if listen_ret b <? 0 then Exit 1 (close_server st)
    else
      match accept_loop accs st with
      | Stopped st => Exit 0 (close_server st)
      | Accepting st => Serving st
      end.

(** The process as it starts: [running] is 1, nothing is open. *)
Definition boot_state : server := mk_server 1 Unopened [].

(** A connection is settled when a session owns its open socket and block,
    or when [main] has given both back. *)
Definition settled (c : conn) : Prop :=
  (conn_session c = true /\ conn_fd c = Opened /\ conn_mem c = Opened) \/
  (conn_session c = false /\ conn_fd c = Released /\
   (conn_mem c = Released \/ conn_mem c = Unopened)).

(** The world in which the session thread of a connection starts. *)
Definition session_world (c : conn) (running_now : Z)
    (inp : list sock_event) (tun : list tun_event) : world :=
  mk_world running_now 0 inp [] tun [] [] [] Unopened (conn_fd c) (conn_mem c).

(** Number of session threads started. *)
Definition sessions_started (st : server) : nat :=
  length (filter conn_session (conns st)).

End Server.

Import Server.

(** ** Kinds of turns of the forwarding loop *)

Module Turns.

(** A turn in which nothing happens: no signal, [select] times out. *)
Definition idle_turn (it : iter_env) : Prop :=
  sig it = false /\ sel it = SelTimeout.

(** A turn in which [select] does not lead to the client socket being read:
    it times out, fails with an error other than EINTR, or reports at most
    the TUN descriptor. *)
Definition client_quiet (it : iter_env) : Prop :=
  sel it = SelTimeout \/ (exists t, sel it = SelReady false t) \/
  (exists e, sel it = SelError e /\ e <> EINTR).

(** A turn in which [select] does not lead to the TUN descriptor being
    read. *)
Definition tun_quiet (it : iter_env) : Prop :=
  sel it = SelTimeout \/ (exists c, sel it = SelReady c false) \/
  (exists e, sel it = SelError e /\ e <> EINTR).

(** A size a TUN write or a frame may have. *)
Definition packet_sized (p : list Z) : Prop := 1 <= nbytes p <= 65535.

(** The client side of a world: what the decode direction works on. *)
Definition client_side (w : world) :=
  (sock_in w, recv_calls w, tun_written w).

(** The TUN side of a world: what the encode direction works on. *)
Definition tun_side (w : world) := (tun_in w, sock_out w, wire w).

(** The world a loop result carries. *)
Definition loop_world (r : loop_result) : world :=
  match r with Exited w | Pending w => w end.

(** An accept turn that starts a session. *)
Definition starts_session (a : accept_env) : bool :=
  (0 <=? accept_ret a) && malloc_ok a && (pthread_ret a =? 0).

(** The server a main result carries. *)
Definition main_state (r : main_result) : server :=
  match r with Exit _ st | Serving st => st end.

End Turns.

Import Turns.

(** ** Frames on the stream, as the specification words them *)

Module Framing.

(** The frame of a payload: its length as four bytes in network order, then
    the payload. *)
Definition frame_of (payload : list Z) : list Z :=
  be_encode 4 (nbytes payload) ++ payload.

(** A send schedule that takes [n] bytes whole at its next send. *)
Definition takes_whole (n : Z) (evs : list send_event) : bool :=
  match evs with
  | [] => true
  | Accept k :: _ => n <=? k
  | SendError _ :: _ => false
  end.

(** "Encode": the packet read from TUN goes on the wire as its frame. *)
Definition encode_emits_frame
    (sender : byte_order) (w : world) (payload : list Z) : Prop :=
  forall rest, tun_in w = TunPacket payload :: rest ->
  concat (wire (snd (tun_to_client sender w))) =
  concat (wire w) ++ frame_of payload.

(** "Decode": from the frame on the stream, in whatever segments it arrives,
    the payload is handed to TUN. *)
Definition decode_yields_payload
    (receiver : byte_order) (stack payload : list Z) (segs : list (list Z))
    : Prop :=
  concat segs = frame_of payload ->
  forall w, sock_in w = map Avail segs ->
  tun_written (snd (client_to_tun receiver stack w)) =
  tun_written w ++ [payload].

(** A turn in which [select] reports the client socket alone. *)
Definition client_turn (stack : list Z) : iter_env :=
  mk_iter false (SelReady true false) stack.

(** "A frame declaring length 0 or length > 65535 is rejected without
    closing the connection; the next well-formed frame on the same connection
    is still processed correctly": with the rejected frame followed by a
    well-formed one on the stream, one turn rejects and the next hands the
    payload of the well-formed frame to TUN. *)
Definition forwards_next_frame
    (host : byte_order) (stack bad_frame payload : list Z)
    (segs : list (list Z)) : Prop :=
  concat segs = bad_frame ++ frame_of payload ->
  forall w, sock_in w = map Avail segs -> running w <> 0 ->
  tun_written
    (loop_world
       (forwarding_loop host [client_turn stack; client_turn stack] w)) =
  tun_written w ++ [payload].

(** A world whose socket takes the prefix whole and one byte of the
    payload. *)
Definition short_send_world : world :=
  mk_world 1 0 [] [Accept 4; Accept 1] [TunPacket [7; 8; 9]] [] [] []
           Opened Opened Opened.

(** An oversized frame complete with its payload: it declares 65536 bytes
    and carries them; the payload begins with bytes that read as a frame of
    three bytes. *)
Definition filler : list Z := repeat 0 (Z.to_nat 65529).

Definition oversized_payload : list Z :=
  be_encode 4 3 ++ [7; 7; 7] ++ filler.

Definition oversized_frame : list Z :=
  be_encode 4 65536 ++ oversized_payload.

End Framing.

Import Framing.


(** * Properties *)

(** ** Byte order *)

Section ByteOrderFacts.

Lemma le_split_length n v : length (le_split n v) = n.
Proof.
  revert v; induction n as [|n IH]; intros v; simpl; [reflexivity|].
  now rewrite IH.
Qed.

Lemma le_split_bytes n v : Forall is_byte (le_split n v).
Proof.
  revert v; induction n as [|n IH]; intros v; simpl; constructor.
  - unfold is_byte. apply Z.mod_pos_bound. lia.
  - apply IH.
Qed.

Lemma le_split_combine bs :
  Forall is_byte bs -> le_split (length bs) (le_combine bs) = bs.
Proof.
  induction 1 as [|b bs Hb _ IH]; [reflexivity|].
  cbn [length le_combine le_split].
  unfold is_byte in Hb.
  replace ((b + 256 * le_combine bs) mod 256) with b
    by (generalize (le_combine bs); intros c; Z.div_mod_to_equations; lia).
  replace ((b + 256 * le_combine bs) / 256) with (le_combine bs)
    by (generalize (le_combine bs); intros c; Z.div_mod_to_equations; lia).
  now rewrite IH.
Qed.

Lemma le_combine_split n v :
  0 <= v < 256 ^ Z.of_nat n -> le_combine (le_split n v) = v.
Proof.
  revert v; induction n as [|n IH]; intros v Hv.
  - simpl in *. lia.
  - cbn [le_split le_combine].
    rewrite IH.
    + pose proof (Z.div_mod v 256). lia.
    + rewrite Nat2Z.inj_succ, Z.pow_succ_r in Hv by lia.
      split; [apply Z.div_pos; lia|].
      apply Z.div_lt_upper_bound; lia.
Qed.

Lemma Forall_is_byte_rev bs : Forall is_byte bs -> Forall is_byte (rev bs).
Proof. intros H. apply Forall_rev, H. Qed.

Lemma le_combine_range bs :
  Forall is_byte bs -> 0 <= le_combine bs < 256 ^ Z.of_nat (length bs).
Proof.
  induction 1 as [|b bs Hb _ IH]; [cbn; lia|].
  cbn [le_combine length]. rewrite Nat2Z.inj_succ, Z.pow_succ_r by lia.
  unfold is_byte in Hb. lia.
Qed.

(** The storage of [htonl v] is the network encoding of [v], whatever the
    host. *)
Lemma store_htonl host v :
  0 <= v < 2 ^ 32 -> store host 4 (htonl host v) = be_encode 4 v.
Proof.
  intros Hv.
  destruct host; unfold store, htonl, be_encode, bswap32;
    [|now rewrite Z.mod_small].
  pose proof (le_split_combine (rev (le_split 4 v))) as H.
  rewrite length_rev, le_split_length in H.
  apply H, Forall_is_byte_rev, le_split_bytes.
Qed.

(** [ntohl] of a loaded object is the network reading of its storage,
    whatever the host. *)
Lemma ntohl_load host bs :
  Forall is_byte bs -> length bs = 4%nat ->
  ntohl host (load host bs) = be_decode bs.
Proof.
  intros Hb Hl.
  destruct host; unfold ntohl, load, be_decode, bswap32.
  - rewrite <- Hl, le_split_combine by assumption. reflexivity.
  - apply Z.mod_small.
    pose proof (le_combine_range (rev bs) (Forall_is_byte_rev bs Hb)) as H.
    rewrite length_rev, Hl in H. exact H.
Qed.

Lemma ntohl_range host x : 0 <= ntohl host x < 2 ^ 32.
Proof.
  destruct host; unfold ntohl, bswap32.
  - pose proof (le_combine_range (rev (le_split 4 x))
                  (Forall_is_byte_rev _ (le_split_bytes 4 x))) as H.
    rewrite length_rev, le_split_length in H. exact H.
  - apply Z.mod_pos_bound. lia.
Qed.

Lemma be_decode_encode v :
  0 <= v < 2 ^ 32 -> be_decode (be_encode 4 v) = v.
Proof.
  intros Hv. unfold be_decode, be_encode.
  rewrite rev_involutive. apply le_combine_split.
  change (256 ^ Z.of_nat 4) with (2 ^ 32). exact Hv.
Qed.

Lemma be_encode_bytes n v : Forall is_byte (be_encode n v).
Proof. apply Forall_is_byte_rev, le_split_bytes. Qed.

Lemma be_encode_length n v : length (be_encode n v) = n.
Proof. unfold be_encode. now rewrite length_rev, le_split_length. Qed.

End ByteOrderFacts.

(** ** The packet classifier *)

Section PktParseFacts.

Lemma low_nibble_range b : 0 <= low_nibble b < 16.
Proof.
  unfold low_nibble. change 15 with (Z.ones 4).
  rewrite Z.land_ones by lia. apply Z.mod_pos_bound. lia.
Qed.

Lemma high_nibble_range b : 0 <= high_nibble b < 16.
Proof.
  unfold high_nibble. change 15 with (Z.ones 4).
  rewrite Z.land_ones by lia. apply Z.mod_pos_bound. lia.
Qed.

Lemma read_u8_ok buf len off :
  0 <= off < len -> len <= nbytes buf ->
  read_u8 buf len off = Ok (byte_at buf off).
Proof.
  intros Ho Hl. unfold read_u8, byte_at, nbytes in *.
  replace (0 <=? off) with true by (symmetry; apply Z.leb_le; lia).
  replace (off <? len) with true by (symmetry; apply Z.ltb_lt; lia).
  cbn [andb].
  rewrite (nth_error_nth' buf 0) by lia. reflexivity.
Qed.

Lemma read_2_ok buf len off :
  0 <= off -> off + 2 <= len -> len <= nbytes buf ->
  read_2 buf len off = Ok [byte_at buf off; byte_at buf (off + 1)].
Proof.
  intros. unfold read_2. rewrite !read_u8_ok by lia. reflexivity.
Qed.

Lemma read_4_ok buf len off :
  0 <= off -> off + 4 <= len -> len <= nbytes buf ->
  read_4 buf len off =
  Ok [byte_at buf off; byte_at buf (off + 1);
      byte_at buf (off + 2); byte_at buf (off + 3)].
Proof.
  intros. unfold read_4. rewrite !read_u8_ok by lia. reflexivity.
Qed.

(** A guarded read never lands in the [Overread] branch. *)
Lemma read_u8_guarded buf len off :
  0 <= off < len ->
  (exists b, read_u8 buf len off = Ok b) \/ read_u8 buf len off = Unmapped off.
Proof.
  intros Ho. unfold read_u8.
  replace (0 <=? off) with true by (symmetry; apply Z.leb_le; lia).
  replace (off <? len) with true by (symmetry; apply Z.ltb_lt; lia).
  cbn [andb]. destruct (nth_error buf (Z.to_nat off)); eauto.
Qed.

Lemma read_2_guarded buf len off :
  0 <= off -> off + 2 <= len ->
  (exists bs, read_2 buf len off = Ok bs) \/
  (exists o, read_2 buf len off = Unmapped o).
Proof.
  intros. unfold read_2.
  destruct (read_u8_guarded buf len off) as [[b0 ->]| ->]; [lia| |cbn; eauto].
  destruct (read_u8_guarded buf len (off + 1)) as [[b1 ->]| ->];
    [lia| |cbn; eauto].
  cbn; eauto.
Qed.

Lemma read_4_guarded buf len off :
  0 <= off -> off + 4 <= len ->
  (exists bs, read_4 buf len off = Ok bs) \/
  (exists o, read_4 buf len off = Unmapped o).
Proof.
  intros. unfold read_4.
  destruct (read_u8_guarded buf len off) as [[b0 ->]| ->]; [lia| |cbn; eauto].
  destruct (read_u8_guarded buf len (off + 1)) as [[b1 ->]| ->];
    [lia| |cbn; eauto].
  destruct (read_u8_guarded buf len (off + 2)) as [[b2 ->]| ->];
    [lia| |cbn; eauto].
  destruct (read_u8_guarded buf len (off + 3)) as [[b3 ->]| ->];
    [lia| |cbn; eauto].
  cbn; eauto.
Qed.

Ltac layout :=
  unfold sizeof_ip, sizeof_tcphdr, off_ip_vhl, off_ip_p, off_ip_src,
    off_ip_dst, off_th_sport, off_th_dport, off_th_off, IPPROTO_TCP in *.

(** No run of the parser ends in the [Overread] branch. *)
Lemma pkt_parse_no_overread host buf len off :
  pkt_parse host buf len <> Overread off.
Proof.
  unfold pkt_parse. layout.
  destruct (Z.ltb_spec len 20) as [|Hlen]; [discriminate|].
  destruct (read_u8_guarded buf len 0) as [[vhl ->]| ->];
    [lia| |discriminate].
  cbn [bind].
  destruct (negb (high_nibble vhl =? 4)); [discriminate|].
  pose proof (low_nibble_range vhl) as Hhl.
  destruct (Z.ltb_spec len (low_nibble vhl * 4)) as [|Hihl]; [discriminate|].
  destruct (read_4_guarded buf len 12) as [[src ->]|[o ->]];
    [lia|lia| |discriminate].
  cbn [bind].
  destruct (read_4_guarded buf len 16) as [[dst ->]|[o ->]];
    [lia|lia| |discriminate].
  cbn [bind].
  destruct (read_u8_guarded buf len 9) as [[p ->]| ->];
    [lia| |discriminate].
  cbn [bind].
  destruct (negb (p =? 6)); [discriminate|].
  destruct (Z.ltb_spec len (low_nibble vhl * 4 + 20)) as [|Htcp];
    [discriminate|].
  destruct (read_u8_guarded buf len (low_nibble vhl * 4 + 12))
    as [[doff ->]| ->]; [lia| |discriminate].
  cbn [bind].
  destruct (read_2_guarded buf len (low_nibble vhl * 4 + 0))
    as [[sport ->]|[o ->]]; [lia|lia| |discriminate].
  cbn [bind].
  destruct (read_2_guarded buf len (low_nibble vhl * 4 + 2))
    as [[dport ->]|[o ->]]; [lia|lia| |discriminate].
  discriminate.
Qed.

(** With the whole of [len] bytes supplied, every read succeeds and the
    parser is the pure decision chain below. *)
Lemma pkt_parse_in_bounds host buf len :
  len <= nbytes buf ->
  pkt_parse host buf len =
  Ok (if len <? 20 then (0, zero_info)
      else if negb (ip_version buf =? 4) then (0, zero_info)
      else
        let ihl := ip_hl_field buf * 4 in
        if len <? ihl then (0, zero_info)
        else
          let src := [byte_at buf 12; byte_at buf 13;
                      byte_at buf 14; byte_at buf 15] in
          let dst := [byte_at buf 16; byte_at buf 17;
                      byte_at buf 18; byte_at buf 19] in
          let info := mk_pkt_info 1 0 (load host src) (load host dst)
                                  0 0 ihl 0 in
          if negb (ip_protocol buf =? 6) then (1, info)
          else if len <? ihl + 20 then (1, info)
          else
            (1, mk_pkt_info 1 1 (load host src) (load host dst)
                  (load host [byte_at buf ihl; byte_at buf (ihl + 1)])
                  (load host [byte_at buf (ihl + 2); byte_at buf (ihl + 3)])
                  ihl (tcp_off_field buf * 4))).
Proof.
  intros Hbuf. unfold pkt_parse, ip_version, ip_hl_field, ip_protocol,
    tcp_off_field. layout.
  destruct (Z.ltb_spec len 20) as [|Hlen]; [reflexivity|].
  rewrite !read_u8_ok by lia. cbn [bind].
  destruct (negb (high_nibble (byte_at buf 0) =? 4)); [reflexivity|].
  pose proof (low_nibble_range (byte_at buf 0)) as Hhl.
  cbv zeta.
  destruct (Z.ltb_spec len (low_nibble (byte_at buf 0) * 4)) as [|Hihl];
    [reflexivity|].
  rewrite !read_4_ok by lia. cbn [bind].
  destruct (negb (byte_at buf 9 =? 6)); [reflexivity|].
  destruct (Z.ltb_spec len (low_nibble (byte_at buf 0) * 4 + 20)) as [|Htcp];
    [reflexivity|].
  rewrite !read_u8_ok by lia. cbn [bind].
  rewrite !read_2_ok by lia. cbn [bind ip_src ip_dst].
  rewrite Z.add_0_r.
  replace (low_nibble (byte_at buf 0) * 4 + 2 + 1)
    with (low_nibble (byte_at buf 0) * 4 + 3) by lia.
  reflexivity.
Qed.

End PktParseFacts.

(** C1.  [pkt_parse] never reads at an offset that its length checks do not
    cover: for every buffer and length no run ends in the [Overread] branch,
    and when the caller supplies the [len] bytes it announces, no access
    fails at all and the parser returns a result. *)
Theorem pkt_parse_reads_within_len host buf len :
  (forall off, pkt_parse host buf len <> Overread off) /\
  (len <= nbytes buf -> exists r, pkt_parse host buf len = Ok r).
Proof.
  split.
  - intros off. apply pkt_parse_no_overread.
  - intros Hbuf. rewrite pkt_parse_in_bounds by assumption. eauto.
Qed.

Lemma pkt_parse_reads_within_len_witness :
  (forall off, pkt_parse LittleEndian test_packet 40 <> Overread off) /\
  exists r, pkt_parse LittleEndian test_packet 40 = Ok r.
Proof.
  destruct (pkt_parse_reads_within_len LittleEndian test_packet 40)
    as [H1 H2].
  split; [exact H1|]. apply H2. vm_compute. discriminate.
Defined.

(** C5.  [pkt_parse] returns 0, with the output structure zeroed, when the
    length is below 20, when the version field is not 4, or when the length
    is below the declared IP header length (header-length field times 4); a
    length below 20 is rejected whatever the buffer holds. *)
Theorem pkt_parse_not_parsed host buf len :
  (len < 20 -> pkt_parse host buf len = Ok (0, zero_info)) /\
  (len <= nbytes buf ->
   len < 20 \/ ip_version buf <> 4 \/ len < ip_hl_field buf * 4 ->
   pkt_parse host buf len = Ok (0, zero_info)).
Proof.
  split.
  - intros Hlen. unfold pkt_parse, sizeof_ip.
    destruct (Z.ltb_spec len 20); [reflexivity|lia].
  - intros Hbuf Hcase. rewrite pkt_parse_in_bounds by assumption.
    destruct (Z.ltb_spec len 20) as [|Hlen]; [reflexivity|].
    destruct (Z.eqb_spec (ip_version buf) 4) as [Hv|Hv]; [|reflexivity].
    cbn [negb]. cbv zeta.
    destruct (Z.ltb_spec len (ip_hl_field buf * 4)) as [|Hihl];
      [reflexivity|].
    lia.
Qed.

Lemma pkt_parse_not_parsed_witness :
  pkt_parse LittleEndian test_packet 10 = Ok (0, zero_info) /\
  pkt_parse LittleEndian (0x65 :: tl test_packet) 40 = Ok (0, zero_info) /\
  pkt_parse LittleEndian (0x4f :: tl test_packet) 40 = Ok (0, zero_info).
Proof.
  split; [|split].
  - apply (proj1 (pkt_parse_not_parsed LittleEndian test_packet 10)). lia.
  - apply (proj2 (pkt_parse_not_parsed LittleEndian
                    (0x65 :: tl test_packet) 40)).
    + vm_compute. discriminate.
    + right; left. vm_compute. discriminate.
  - apply (proj2 (pkt_parse_not_parsed LittleEndian
                    (0x4f :: tl test_packet) 40)).
    + vm_compute. discriminate.
    + right; right. vm_compute. reflexivity.
Defined.

(** C6.  For a buffer that passes the IPv4 checks, a protocol other than TCP,
    or fewer than 20 bytes after the IP header, gives success (1) with
    [is_ipv4] set and [is_tcp] clear; the TCP fields stay zero. *)
Theorem pkt_parse_ip_not_tcp host buf len :
  len <= nbytes buf ->
  20 <= len -> ip_version buf = 4 -> ip_hl_field buf * 4 <= len ->
  ip_protocol buf <> IPPROTO_TCP \/ len - ip_hl_field buf * 4 < 20 ->
  exists info,
    pkt_parse host buf len = Ok (1, info) /\
    is_ipv4 info = 1 /\ is_tcp info = 0 /\
    ip_header_len info = ip_hl_field buf * 4 /\
    tcp_header_len info = 0 /\ tcp_src info = 0 /\ tcp_dst info = 0.
Proof.
  intros Hbuf Hlen Hv Hihl Hcase. unfold IPPROTO_TCP in Hcase.
  rewrite pkt_parse_in_bounds by assumption.
  destruct (Z.ltb_spec len 20); [lia|].
  rewrite Hv. cbn [Z.eqb Pos.eqb negb]. cbv zeta.
  destruct (Z.ltb_spec len (ip_hl_field buf * 4)); [lia|].
  destruct (Z.eqb_spec (ip_protocol buf) 6) as [Hp|Hp]; cbn [negb].
  - destruct (Z.ltb_spec len (ip_hl_field buf * 4 + 20)); [|lia].
    eexists; split; [reflexivity|]. cbn. tauto.
  - eexists; split; [reflexivity|]. cbn. tauto.
Qed.

Lemma pkt_parse_ip_not_tcp_witness :
  exists info,
    pkt_parse LittleEndian udp_packet 28 = Ok (1, info) /\
    is_ipv4 info = 1 /\ is_tcp info = 0 /\
    ip_header_len info = ip_hl_field udp_packet * 4 /\
    tcp_header_len info = 0 /\ tcp_src info = 0 /\ tcp_dst info = 0.
Proof.
  apply (pkt_parse_ip_not_tcp LittleEndian udp_packet 28).
  - vm_compute. discriminate.
  - lia.
  - reflexivity.
  - vm_compute. discriminate.
  - left. vm_compute. discriminate.
Defined.

(** C7.  A 20-byte IPv4 header (version 4, header-length field 5, protocol
    TCP) followed by a 20-byte TCP header (data-offset field 5, source port
    1234 and destination port 25 on the wire) is classified with [is_ipv4]
    and [is_tcp] set and both header lengths 20; the ports are the wire bytes
    unchanged, that is [htons 1234] and [htons 25] on the host, and the
    addresses are the wire bytes unchanged as well. *)
Theorem pkt_parse_tcp_packet host buf :
  nbytes buf = 40 ->
  ip_version buf = 4 -> ip_hl_field buf = 5 ->
  ip_protocol buf = IPPROTO_TCP ->
  high_nibble (byte_at buf 32) = 5 ->
  [byte_at buf 20; byte_at buf 21] = be_encode 2 1234 ->
  [byte_at buf 22; byte_at buf 23] = be_encode 2 25 ->
  exists info,
    pkt_parse host buf 40 = Ok (1, info) /\
    is_ipv4 info = 1 /\ is_tcp info = 1 /\
    ip_header_len info = 20 /\ tcp_header_len info = 20 /\
    tcp_src info = htons host 1234 /\ tcp_dst info = htons host 25 /\
    store host 2 (tcp_src info) = [0x04; 0xd2] /\
    store host 2 (tcp_dst info) = [0x00; 0x19] /\
    ip_src info = load host (map (byte_at buf) [12; 13; 14; 15]) /\
    ip_dst info = load host (map (byte_at buf) [16; 17; 18; 19]).
Proof.
  intros Hn Hv Hhl Hp Hoff Hs Hd. unfold IPPROTO_TCP in Hp.
  rewrite pkt_parse_in_bounds by lia.
  unfold tcp_off_field, off_th_off.
  rewrite Hv, Hhl, Hp. cbv zeta.
  change (5 * 4 + 12) with 32. rewrite Hoff.
  change (5 * 4) with 20. change (20 + 1) with 21.
  change (20 + 2) with 22. change (20 + 3) with 23.
  rewrite Hs, Hd.
  eexists; split; [reflexivity|].
  cbn [is_ipv4 is_tcp ip_header_len tcp_header_len tcp_src tcp_dst
       ip_src ip_dst map].
  repeat split; destruct host; reflexivity.
Qed.

Lemma pkt_parse_tcp_packet_witness :
  exists info,
    pkt_parse LittleEndian test_packet 40 = Ok (1, info) /\
    is_ipv4 info = 1 /\ is_tcp info = 1 /\
    ip_header_len info = 20 /\ tcp_header_len info = 20 /\
    tcp_src info = htons LittleEndian 1234 /\
    tcp_dst info = htons LittleEndian 25 /\
    store LittleEndian 2 (tcp_src info) = [0x04; 0xd2] /\
    store LittleEndian 2 (tcp_dst info) = [0x00; 0x19] /\
    ip_src info = load LittleEndian (map (byte_at test_packet) [12; 13; 14; 15]) /\
    ip_dst info = load LittleEndian (map (byte_at test_packet) [16; 17; 18; 19]).
Proof.
  apply (pkt_parse_tcp_packet LittleEndian test_packet); reflexivity.
Defined.

(** C9.  In every result of [pkt_parse], [is_tcp] set implies [is_ipv4]
    set. *)
Theorem pkt_parse_tcp_implies_ipv4 host buf len r info :
  pkt_parse host buf len = Ok (r, info) ->
  is_tcp info <> 0 -> is_ipv4 info = 1.
Proof.
  unfold pkt_parse. intros H Htcp.
  repeat match type of H with
         | context [if ?c then _ else _] => destruct c
         | context [bind ?m _] => destruct m; cbn [bind] in H
         end;
    try discriminate; inversion H; subst; cbn in *; congruence.
Qed.

Lemma pkt_parse_tcp_implies_ipv4_witness :
  is_ipv4 (mk_pkt_info 1 1 16885952 33663168 53764 6400 20 20) = 1.
Proof.
  apply (pkt_parse_tcp_implies_ipv4 LittleEndian test_packet 40 1).
  - vm_compute. reflexivity.
  - vm_compute. discriminate.
Defined.

(** C10.  The lower bound of the 4-bit header-length fields is not enforced.
    With length at least 20 and version 4, an IP header-length field below 5
    is accepted and reported as [ip_header_len = field * 4 < 20]; whenever
    [is_tcp] is set, [tcp_header_len] is the data-offset field times 4,
    whatever the field holds; and both reported lengths can be 0. *)
Theorem pkt_parse_header_length_unchecked host :
  (forall buf len,
     20 <= len <= nbytes buf -> ip_version buf = 4 -> ip_hl_field buf < 5 ->
     exists info,
       pkt_parse host buf len = Ok (1, info) /\ is_ipv4 info = 1 /\
       ip_header_len info = ip_hl_field buf * 4 /\ ip_header_len info < 20) /\
  (forall buf len r info,
     len <= nbytes buf -> pkt_parse host buf len = Ok (r, info) ->
     is_tcp info = 1 -> tcp_header_len info = tcp_off_field buf * 4) /\
  (exists info,
     pkt_parse host zero_length_packet 20 = Ok (1, info) /\
     is_ipv4 info = 1 /\ is_tcp info = 1 /\
     ip_header_len info = 0 /\ tcp_header_len info = 0).
Proof.
  split; [|split].
  - intros buf len Hlen Hv Hhl.
    pose proof (low_nibble_range (byte_at buf off_ip_vhl)) as Hr.
    fold (ip_hl_field buf) in Hr.
    rewrite pkt_parse_in_bounds by lia.
    destruct (Z.ltb_spec len 20); [lia|].
    rewrite Hv. cbn [Z.eqb Pos.eqb negb]. cbv zeta.
    destruct (Z.ltb_spec len (ip_hl_field buf * 4)); [lia|].
    destruct (negb (ip_protocol buf =? 6));
      [|destruct (len <? ip_hl_field buf * 4 + 20)];
      (eexists; split; [reflexivity|]; cbn; repeat split; lia).
  - intros buf len r info Hbuf H Htcp.
    rewrite pkt_parse_in_bounds in H by assumption.
    cbv zeta in H.
    repeat match type of H with
           | context [if ?c then _ else _] => destruct c
           end;
      inversion H; subst; cbn in *; (discriminate || reflexivity).
  - destruct host; eexists; (split; [vm_compute; reflexivity|]);
      cbn; repeat split; reflexivity.
Qed.

Lemma pkt_parse_header_length_unchecked_witness :
  exists info,
    pkt_parse BigEndian zero_length_packet 20 = Ok (1, info) /\
    is_ipv4 info = 1 /\
    ip_header_len info = ip_hl_field zero_length_packet * 4 /\
    ip_header_len info < 20.
Proof.
  apply (proj1 (pkt_parse_header_length_unchecked BigEndian)
               zero_length_packet 20).
  - vm_compute. split; discriminate.
  - reflexivity.
  - reflexivity.
Defined.

(** ** The tunnel session *)

Section SyscallFacts.

Lemma recv_avail n bs rest w :
  sock_in w = Avail bs :: rest ->
  recv n w =
  (nbytes (firstn (Z.to_nat n) bs), firstn (Z.to_nat n) bs,
   set_sock_in (requeue (skipn (Z.to_nat n) bs) rest) (log_recv n w)).
Proof. intros H. unfold recv. cbn [sock_in log_recv]. now rewrite H. Qed.

(** A receive logs its request and touches nothing but the stream and
    [errno]. *)
Lemma recv_frame n w r d w' :
  recv n w = (r, d, w') ->
  recv_calls w' = recv_calls w ++ [n] /\
  tun_written w' = tun_written w /\ wire w' = wire w /\
  running w' = running w /\ same_handles w w' /\
  (r = -1 \/ r = nbytes d).
Proof.
  unfold recv, same_handles. cbn [sock_in log_recv].
  destruct (sock_in w) as [|[bs|e] rest]; intros H; inversion H; subst;
    cbn; repeat split; auto.
Qed.

Lemma send_frame data w r w' :
  send data w = (r, w') ->
  recv_calls w' = recv_calls w /\ tun_written w' = tun_written w /\
  running w' = running w /\ same_handles w w'.
Proof.
  unfold send, same_handles.
  destruct (sock_out w) as [|[k|e] rest]; intros H; inversion H; subst;
    cbn; repeat split; auto.
Qed.

Lemma tun_read_frame n w r d w' :
  tun_read n w = (r, d, w') ->
  recv_calls w' = recv_calls w /\ tun_written w' = tun_written w /\
  running w' = running w /\ same_handles w w'.
Proof.
  unfold tun_read, same_handles.
  destruct (tun_in w) as [|[bs|e] rest]; intros H; inversion H; subst;
    cbn; repeat split; auto.
Qed.

Lemma same_handles_refl w : same_handles w w.
Proof. unfold same_handles; auto. Qed.

Lemma same_handles_trans w1 w2 w3 :
  same_handles w1 w2 -> same_handles w2 w3 -> same_handles w1 w3.
Proof. unfold same_handles; intuition congruence. Qed.

Lemma firstn_exact {A} (l r : list A) n :
  length l = n -> firstn n (l ++ r) = l.
Proof.
  intros <-. rewrite firstn_app, Nat.sub_diag, firstn_all. cbn.
  apply app_nil_r.
Qed.

Lemma skipn_exact {A} (l r : list A) n :
  length l = n -> skipn n (l ++ r) = r.
Proof.
  intros <-. rewrite skipn_app, Nat.sub_diag, skipn_all. reflexivity.
Qed.

Lemma received_whole stack prefix :
  length prefix = 4%nat -> received_into (firstn 4 stack) prefix = prefix.
Proof.
  intros H. unfold received_into. rewrite H.
  rewrite skipn_all2 by (rewrite length_firstn; lia).
  apply app_nil_r.
Qed.

Lemma length_bound_ok L :
  1 <= L <= 65535 -> (L >? 65535) || (L =? 0) = false.
Proof.
  intros H. rewrite Z.gtb_ltb.
  destruct (Z.ltb_spec 65535 L); [lia|].
  destruct (Z.eqb_spec L 0); [lia|reflexivity].
Qed.

Lemma length_bound_bad L :
  L = 0 \/ 65535 < L -> (L >? 65535) || (L =? 0) = true.
Proof.
  intros H. rewrite Z.gtb_ltb.
  destruct (Z.ltb_spec 65535 L); [reflexivity|].
  destruct (Z.eqb_spec L 0); [reflexivity|lia].
Qed.

Lemma firstn_nonempty_size L (body : list Z) :
  1 <= L -> body <> [] ->
  (nbytes (firstn (Z.to_nat L) body) <=? 0) = false.
Proof.
  intros HL Hb. destruct body as [|b body]; [contradiction|].
  destruct (Z.to_nat L) as [|k] eqn:E; [lia|].
  cbn [firstn]. unfold nbytes. cbn [length].
  apply Z.leb_gt. lia.
Qed.

Lemma firstn_own_size (l : list Z) : firstn (Z.to_nat (nbytes l)) l = l.
Proof. unfold nbytes. rewrite Nat2Z.id. apply firstn_all. Qed.

Lemma skipn_own_size (l : list Z) : skipn (Z.to_nat (nbytes l)) l = [].
Proof. unfold nbytes. rewrite Nat2Z.id. apply skipn_all. Qed.

(** The decode step once the first receive has returned a whole prefix. *)
Lemma client_to_tun_after_prefix host stack w prefix pending :
  Forall is_byte prefix -> length prefix = 4%nat ->
  recv 4 w = (4, prefix, set_sock_in pending (log_recv 4 w)) ->
  client_to_tun host stack w =
  let w1 := set_sock_in pending (log_recv 4 w) in
  let L := be_decode prefix in
  if (L >? 65535) || (L =? 0) then (Continue, w1)
  else
    let '(bytes_read, packet_buffer, w2) := recv L w1 in
    if bytes_read <=? 0 then (Continue, w2)
    else (Fall, tun_write (firstn (Z.to_nat bytes_read) packet_buffer) w2).
Proof.
  intros Hb Hl Hr. unfold client_to_tun. rewrite Hr.
  cbn [Z.leb Z.compare].
  rewrite received_whole, ntohl_load by assumption.
  reflexivity.
Qed.

(** The first receive of a step, when at least the prefix has arrived. *)
Lemma recv_prefix w prefix tail rest :
  length prefix = 4%nat ->
  sock_in w = Avail (prefix ++ tail) :: rest ->
  recv 4 w = (4, prefix, set_sock_in (requeue tail rest) (log_recv 4 w)).
Proof.
  intros Hl Hs. rewrite (recv_avail 4 _ _ w Hs).
  change (Z.to_nat 4) with 4%nat.
  rewrite firstn_exact, skipn_exact by assumption.
  unfold nbytes. rewrite Hl. reflexivity.
Qed.

(** A step that finds a malformed length drops its four bytes and goes on
    with the next turn of the loop. *)
Lemma client_to_tun_bad_length host stack w prefix tail rest :
  Forall is_byte prefix -> length prefix = 4%nat ->
  be_decode prefix = 0 \/ 65535 < be_decode prefix ->
  sock_in w = Avail (prefix ++ tail) :: rest ->
  client_to_tun host stack w =
  (Continue, set_sock_in (requeue tail rest) (log_recv 4 w)).
Proof.
  intros Hb Hl Hbad Hs.
  rewrite (client_to_tun_after_prefix host stack w prefix
             (requeue tail rest) Hb Hl (recv_prefix w prefix tail rest Hl Hs)).
  cbv zeta. now rewrite length_bound_bad.
Qed.

(** A step that finds a well-formed length hands to TUN what its one payload
    receive returns: the front of the segment then pending, up to the
    declared length. *)
Lemma client_to_tun_frame host stack w prefix body rest :
  Forall is_byte prefix -> length prefix = 4%nat ->
  1 <= be_decode prefix <= 65535 -> body <> [] ->
  sock_in w = Avail (prefix ++ body) :: rest \/
  sock_in w = Avail prefix :: Avail body :: rest ->
  client_to_tun host stack w =
  (Fall,
   put_tun (firstn (Z.to_nat (be_decode prefix)) body)
     (set_sock_in (requeue (skipn (Z.to_nat (be_decode prefix)) body) rest)
        (log_recv (be_decode prefix) (log_recv 4 w)))).
Proof.
  intros Hb Hl HL Hne Hs.
  assert (Hr : recv 4 w =
               (4, prefix, set_sock_in (Avail body :: rest) (log_recv 4 w))).
  { destruct Hs as [Hs|Hs].
    - rewrite (recv_prefix w prefix body rest Hl Hs).
      destruct body; [contradiction|reflexivity].
    - rewrite <- (app_nil_r prefix) in Hs.
      rewrite (recv_prefix w prefix [] _ Hl Hs). reflexivity. }
  rewrite (client_to_tun_after_prefix host stack w prefix _ Hb Hl Hr).
  cbv zeta. rewrite length_bound_ok by assumption.
  erewrite recv_avail by reflexivity.
  rewrite firstn_nonempty_size by (assumption || lia).
  rewrite firstn_own_size. reflexivity.
Qed.

(** One turn of the loop in which [select] reports readiness. *)
Lemma loop_body_ready host it w c t :
  sel it = SelReady c t -> (c || t) = true ->
  loop_body host it w =
  let '(f, w') := if c then client_to_tun host (junk it) w else (Fall, w) in
  match f with
  | Fall => if t then tun_to_client host w' else (Fall, w')
  | _ => (f, w')
  end.
Proof.
  intros Hsel Hct. unfold loop_body. rewrite Hsel. cbn [select].
  destruct c, t; try discriminate; reflexivity.
Qed.

End SyscallFacts.

Section SessionFacts.

Variable host : byte_order.

Lemma client_to_tun_frame_conditions stack w f w' :
  client_to_tun host stack w = (f, w') ->
  same_handles w w' /\ running w' = running w /\ wire w' = wire w /\
  (recv_calls w' = recv_calls w ++ [4] /\ tun_written w' = tun_written w \/
   exists L, 1 <= L <= 65535 /\ recv_calls w' = recv_calls w ++ [4; L] /\
     (tun_written w' = tun_written w \/
      exists data, data <> [] /\ tun_written w' = tun_written w ++ [data])).
Proof.
  unfold client_to_tun.
  destruct (recv 4 w) as [[r d] w1] eqn:E1.
  apply recv_frame in E1. destruct E1 as (Hc1 & Ht1 & Hw1 & Hr1 & Hh1 & _).
  destruct (r <=? 0).
  { intros H; inversion H; subst. repeat split; auto; try apply Hh1. }
  set (L := ntohl host (load host (received_into (firstn 4 stack) d))).
  destruct ((L >? 65535) || (L =? 0)) eqn:EL.
  { intros H; inversion H; subst. repeat split; auto; try apply Hh1. }
  assert (HL : 1 <= L <= 65535).
  { apply orb_false_iff in EL. destruct EL as [E1 E2].
    rewrite Z.gtb_ltb in E1. apply Z.ltb_ge in E1. apply Z.eqb_neq in E2.
    pose proof (ntohl_range host
                  (load host (received_into (firstn 4 stack) d))) as Hrange.
    fold L in Hrange. lia. }
  destruct (recv L w1) as [[r2 d2] w2] eqn:E2.
  apply recv_frame in E2. destruct E2 as (Hc2 & Ht2 & Hw2 & Hr2 & Hh2 & Hd2).
  assert (Hcalls : recv_calls w2 = recv_calls w ++ [4; L])
    by (rewrite Hc2, Hc1, <- app_assoc; reflexivity).
  destruct (Z.leb_spec r2 0) as [Hle|Hpos]; intros Hres; inversion Hres; subst.
  - split; [eapply same_handles_trans; eauto|].
    repeat split; try congruence.
    right. exists L. repeat split; try lia; auto. left. congruence.
  - split; [eapply same_handles_trans; eauto|].
    cbn. repeat split; try congruence.
    right. exists L. repeat split; try lia; auto. right.
    exists (firstn (Z.to_nat r2) d2). split; [|congruence].
    destruct Hd2 as [->| ->]; [lia|].
    rewrite firstn_own_size. destruct d2; [cbn in Hpos; lia|discriminate].
Qed.

Lemma tun_to_client_frame_conditions w f w' :
  tun_to_client host w = (f, w') ->
  same_handles w w' /\ running w' = running w /\
  recv_calls w' = recv_calls w /\ tun_written w' = tun_written w.
Proof.
  unfold tun_to_client.
  destruct (tun_read 65535 w) as [[r d] w1] eqn:E1.
  apply tun_read_frame in E1. destruct E1 as (Hc1 & Ht1 & Hr1 & Hh1).
  destruct (r >? 0).
  - destruct (send _ w1) as [r2 w2] eqn:E2.
    apply send_frame in E2. destruct E2 as (Hc2 & Ht2 & Hr2 & Hh2).
    assert (H12 : same_handles w w2) by (eapply same_handles_trans; eauto).
    destruct (negb (r2 =? 4)).
    + destruct (negb (would_block (errno w2)));
        intros H; inversion H; subst; repeat split; congruence || apply H12.
    + destruct (send _ w2) as [r3 w3] eqn:E3.
      apply send_frame in E3. destruct E3 as (Hc3 & Ht3 & Hr3 & Hh3).
      assert (H13 : same_handles w w3) by (eapply same_handles_trans; eauto).
      destruct (r3 <? 0); [destruct (negb (would_block (errno w3)))|];
        intros H; inversion H; subst; repeat split; congruence || apply H13.
  - destruct ((r <? 0) && negb (would_block (errno w1)));
      intros H; inversion H; subst; repeat split; congruence || apply Hh1.
Qed.

Lemma loop_body_handles it w f w' :
  loop_body host it w = (f, w') -> same_handles w w' /\ running w' = running w.
Proof.
  unfold loop_body.
  assert (Hsel : exists a c t e,
             select (sel it) w = (a, (c, t), e) /\
             same_handles w e /\ running e = running w).
  { destruct (sel it); cbn; do 4 eexists;
      (split; [reflexivity|unfold same_handles; cbn; auto]). }
  destruct Hsel as (a & c & t & e & -> & Hh & Hr).
  destruct ((a <? 0) && negb (errno e =? EINTR));
    [intros H; inversion H; subst; auto|].
  destruct (a =? 0); [intros H; inversion H; subst; auto|].
  destruct (if c then client_to_tun host (junk it) e else (Fall, e))
    as [f1 w1] eqn:E1.
  assert (H1 : same_handles e w1 /\ running w1 = running e).
  { destruct c.
    - apply client_to_tun_frame_conditions in E1. tauto.
    - inversion E1; subst. split; [apply same_handles_refl|reflexivity]. }
  destruct H1 as [Hh1 Hr1].
  assert (Hw1 : same_handles w w1) by (eapply same_handles_trans; eauto).
  destruct f1; try (intros H; inversion H; subst; split; congruence).
  destruct t; [|intros H; inversion H; subst; split; congruence].
  intros H. apply tun_to_client_frame_conditions in H.
  destruct H as (Hh2 & Hr2 & _).
  split; [eapply same_handles_trans; eauto|congruence].
Qed.

(** The forwarding loop opens and closes nothing. *)
Lemma forwarding_loop_handles its w :
  match forwarding_loop host its w with
  | Exited w' | Pending w' => same_handles w w'
  end.
Proof.
  revert w. induction its as [|it its IH]; intros w.
  - apply same_handles_refl.
  - cbn [forwarding_loop].
    set (w0 := if sig it then signal_handler w else w).
    assert (H0 : same_handles w w0)
      by (subst w0; destruct (sig it); unfold same_handles; cbn; auto).
    destruct (running w0 =? 0); [exact H0|].
    destruct (loop_body host it w0) as [f w1] eqn:E.
    apply loop_body_handles in E. destruct E as [Hh1 _].
    assert (H1 : same_handles w w1) by (eapply same_handles_trans; eauto).
    destruct f; [| |exact H1];
      (specialize (IH w1); destruct (forwarding_loop host its w1);
       eapply same_handles_trans; eauto).
Qed.

(** [handle_client] with the set-up calls inlined. *)
Lemma handle_client_paths s its w :
  handle_client host s its w =
  if open_ret s <? 0 then
    Returned (free_client (close_client (set_errno (open_errno s) w)))
  else
    let w1 := set_tun_fd (acquire (tun_fd w)) w in
    if ioctl_ret s <? 0 then
      Returned (free_client (close_client
                  (close_tun (set_errno (ioctl_errno s) w1))))
    else if negb (addr_ret s =? 0) || negb (link_ret s =? 0) then
      Returned (free_client (close_client (close_tun w1)))
    else
      match forwarding_loop host its w1 with
      | Exited w2 => Returned (free_client (close_client (close_tun w2)))
      | Pending w2 => Forwarding w2
      end.
Proof.
  unfold handle_client, create_tun_device, configure_tun_device.
  destruct (open_ret s <? 0) eqn:Ho; [reflexivity|].
  destruct (ioctl_ret s <? 0); [reflexivity|].
  rewrite Ho.
  destruct (negb (addr_ret s =? 0)); [reflexivity|].
  destruct (negb (link_ret s =? 0)); reflexivity.
Qed.

(** Every trigger named by the specification does make the session
    return. *)
Lemma session_exit_triggers s it its w :
  (open_ret s < 0 \/ ioctl_ret s < 0 \/ addr_ret s <> 0 \/ link_ret s <> 0 ->
   exists w', handle_client host s its w = Returned w') /\
  (0 <= open_ret s -> 0 <= ioctl_ret s -> addr_ret s = 0 -> link_ret s = 0 ->
   (sig it = true \/ running w = 0 \/
    (exists e, sel it = SelError e /\ e <> EINTR) \/
    (exists t, sel it = SelReady true t /\ sock_in w = [])) ->
   exists w', handle_client host s (it :: its) w = Returned w').
Proof.
  rewrite !handle_client_paths. cbv zeta. split.
  - intros H.
    destruct (Z.ltb_spec (open_ret s) 0); [eauto|].
    destruct (Z.ltb_spec (ioctl_ret s) 0); [eauto|].
    destruct (Z.eqb_spec (addr_ret s) 0); cbn [negb orb]; [|eauto].
    destruct (Z.eqb_spec (link_ret s) 0); cbn [negb]; [lia|eauto].
  - intros Ho Hi Ha Hl H.
    destruct (Z.ltb_spec (open_ret s) 0); [lia|].
    destruct (Z.ltb_spec (ioctl_ret s) 0); [lia|].
    rewrite Ha, Hl. cbn [Z.eqb negb orb forwarding_loop].
    destruct (sig it) eqn:Hsig; [cbn; eauto|].
    cbn [running set_tun_fd].
    destruct (Z.eqb_spec (running w) 0) as [|Hrun]; [eauto|].
    destruct H as [H|[H|[(e & Hsel & He)|(t & Hsel & Hs)]]];
      [discriminate|contradiction| |].
    + unfold loop_body. rewrite Hsel. cbn [select errno set_errno].
      apply Z.eqb_neq in He. rewrite He. cbn. eauto.
    + rewrite (loop_body_ready host it _ true t Hsel eq_refl).
      unfold client_to_tun, recv. cbn [sock_in log_recv set_tun_fd].
      rewrite Hs. cbn. eauto.
Qed.

(** The encode step when TUN delivers a packet and the socket takes both
    sends whole. *)
Lemma tun_to_client_sends w payload rest :
  1 <= nbytes payload <= 65535 ->
  tun_in w = TunPacket payload :: rest -> sock_out w = [] ->
  tun_to_client host w =
  (Fall,
   put_wire payload
     (put_wire (be_encode 4 (nbytes payload)) (set_tun_in rest w))).
Proof.
  intros HN Htun Hout. unfold tun_to_client, tun_read. rewrite Htun.
  rewrite firstn_all2 by (unfold nbytes in HN; lia).
  destruct (Z.gtb_spec (nbytes payload) 0) as [_|]; [|lia].
  rewrite Z.mod_small by lia.
  rewrite store_htonl by lia.
  unfold send at 1. cbn [sock_out set_tun_in]. rewrite Hout.
  replace (nbytes (be_encode 4 (nbytes payload))) with 4
    by (unfold nbytes at 1; now rewrite be_encode_length).
  cbn [Z.eqb Pos.eqb negb].
  unfold send. cbn [sock_out set_tun_in put_wire]. rewrite Hout.
  rewrite firstn_own_size.
  destruct (Z.ltb_spec (nbytes payload) 0); [lia|reflexivity].
Qed.

End SessionFacts.

(** C2 (as stated).  The decode step does not loop over partial reads.  When
    the three payload bytes of a frame arrive in segments of one and two
    bytes, the step forwards the first byte alone and leaves the other two
    in the stream; when the prefix arrives in two halves, the missing half
    is taken from what lay in [packet_length] before. *)
Lemma decode_does_not_loop :
  ~ decode_obtains_declared_payload LittleEndian [0; 0; 0; 0]
      split_payload_world /\
  client_to_tun LittleEndian [0; 0; 0; 0] split_payload_world =
    (Fall,
     put_tun [1] (set_sock_in [Avail [2; 3]]
                    (log_recv 3 (log_recv 4 split_payload_world)))) /\
  ~ decode_obtains_declared_payload LittleEndian [0; 0; 0; 5]
      split_prefix_world.
Proof.
  split; [|split].
  - intros H. unfold decode_obtains_declared_payload in H. cbv zeta in H.
    assert (H1 : 4 < nbytes (stream_bytes (sock_in split_payload_world)))
      by (vm_compute; reflexivity).
    assert (H2 : 1 <= be_decode
                        (firstn 4 (stream_bytes (sock_in split_payload_world)))
                 <= 65535)
      by (vm_compute; split; discriminate).
    specialize (H H1 H2). vm_compute in H. discriminate.
  - vm_compute. reflexivity.
  - intros H. unfold decode_obtains_declared_payload in H. cbv zeta in H.
    assert (H1 : 4 < nbytes (stream_bytes (sock_in split_prefix_world)))
      by (vm_compute; reflexivity).
    assert (H2 : 1 <= be_decode
                        (firstn 4 (stream_bytes (sock_in split_prefix_world)))
                 <= 65535)
      by (vm_compute; split; discriminate).
    specialize (H H1 H2). vm_compute in H. discriminate.
Qed.

(** C2 (amended).  The decode step issues one receive of 4 bytes for the
    prefix and, when the length is in bounds, one receive of that many bytes
    for the payload, and no further receive.  When the first receive returns
    the whole prefix, the step hands to TUN exactly what the second receive
    returns, which is the whole payload if that has arrived by then. *)
Theorem decode_one_receive_per_phase host stack w :
  (forall f w', client_to_tun host stack w = (f, w') ->
     recv_calls w' = recv_calls w ++ [4] \/
     exists L, 1 <= L <= 65535 /\ recv_calls w' = recv_calls w ++ [4; L]) /\
  (forall prefix body rest,
     Forall is_byte prefix -> length prefix = 4%nat ->
     1 <= be_decode prefix <= 65535 -> body <> [] ->
     sock_in w = Avail (prefix ++ body) :: rest \/
     sock_in w = Avail prefix :: Avail body :: rest ->
     exists w',
       client_to_tun host stack w = (Fall, w') /\
       recv_calls w' = recv_calls w ++ [4; be_decode prefix] /\
       tun_written w' =
         tun_written w ++ [firstn (Z.to_nat (be_decode prefix)) body] /\
       sock_in w' = requeue (skipn (Z.to_nat (be_decode prefix)) body) rest /\
       (be_decode prefix <= nbytes body ->
        nbytes (firstn (Z.to_nat (be_decode prefix)) body) =
        be_decode prefix)).
Proof.
  split.
  - intros f w' H. apply client_to_tun_frame_conditions in H.
    destruct H as (_ & _ & _ & [[H _]|(L & HL & H & _)]); eauto.
  - intros prefix body rest Hb Hl HL Hne Hs.
    rewrite (client_to_tun_frame host stack w prefix body rest Hb Hl HL Hne Hs).
    eexists; split; [reflexivity|].
    cbn [recv_calls tun_written sock_in put_tun set_sock_in log_recv].
    rewrite <- app_assoc. repeat split.
    intros Hle. unfold nbytes in *. rewrite length_firstn. lia.
Qed.

Lemma decode_one_receive_per_phase_witness :
  exists w',
    client_to_tun LittleEndian [0; 0; 0; 0] split_payload_world = (Fall, w') /\
    recv_calls w' = [4; 3] /\ tun_written w' = [[1]] /\
    sock_in w' = [Avail [2; 3]].
Proof.
  destruct (proj2 (decode_one_receive_per_phase LittleEndian [0; 0; 0; 0]
                     split_payload_world)
              [0; 0; 0; 3] [1] [Avail [2; 3]])
    as (w' & H1 & H2 & H3 & H4 & _).
  - repeat constructor; unfold is_byte; lia.
  - reflexivity.
  - vm_compute. split; discriminate.
  - discriminate.
  - right. reflexivity.
  - exists w'. repeat split; assumption.
Defined.

(** C8.  Whenever a session returns, whatever made it return, the client
    socket is closed and the session block freed, each exactly once, and the
    TUN descriptor is closed exactly once if it was opened and untouched if
    it was not. *)
Theorem session_exit_releases host s its w w' :
  fresh_session w ->
  handle_client host s its w = Returned w' ->
  client_fd w' = Released /\ client_mem w' = Released /\
  tun_fd w' = (if open_ret s <? 0 then Unopened else Released).
Proof.
  intros (Hfd & Hmem & Htun). rewrite handle_client_paths. cbv zeta.
  destruct (open_ret s <? 0).
  { intros H; inversion H; subst. cbn. now rewrite Hfd, Hmem, Htun. }
  destruct (ioctl_ret s <? 0).
  { intros H; inversion H; subst. cbn. now rewrite Hfd, Hmem, Htun. }
  destruct (negb (addr_ret s =? 0) || negb (link_ret s =? 0)).
  { intros H; inversion H; subst. cbn. now rewrite Hfd, Hmem, Htun. }
  pose proof (forwarding_loop_handles host its
                (set_tun_fd (acquire (tun_fd w)) w)) as Hloop.
  destruct (forwarding_loop host its (set_tun_fd (acquire (tun_fd w)) w))
    as [w2|w2]; [|discriminate].
  destruct Hloop as (H1 & H2 & H3). cbn in H1, H2, H3.
  intros H; inversion H; subst. cbn.
  now rewrite H1, H2, H3, Hfd, Hmem, Htun.
Qed.

Lemma session_exit_releases_witness :
  client_fd (mk_world 1 0 [] [] [] [4] [] [] Released Released Released)
    = Released /\
  client_mem (mk_world 1 0 [] [] [] [4] [] [] Released Released Released)
    = Released /\
  tun_fd (mk_world 1 0 [] [] [] [4] [] [] Released Released Released)
    = Released.
Proof.
  apply (session_exit_releases LittleEndian (mk_setup 3 0 0 0 2 25)
           [mk_iter false (SelReady true false) []] (initial_world [] [])).
  - repeat split.
  - vm_compute. reflexivity.
Defined.

(** * Further properties of the code *)

(** ** pktparse.c *)

Section PktParseMore.

Lemma store_load host bs :
  Forall is_byte bs -> store host (length bs) (load host bs) = bs.
Proof.
  intros Hb. destruct host; unfold store, load.
  - now apply le_split_combine.
  - rewrite <- (length_rev bs), le_split_combine
      by now apply Forall_is_byte_rev.
    apply rev_involutive.
Qed.

Lemma byte_at_is_byte buf off :
  Forall is_byte buf -> is_byte (byte_at buf off).
Proof.
  intros Hb. unfold byte_at.
  destruct (nth_in_or_default (Z.to_nat off) buf 0) as [Hin| ->].
  - rewrite Forall_forall in Hb. now apply Hb.
  - unfold is_byte. lia.
Qed.

End PktParseMore.

(** X1.  The return value of [pkt_parse] is 0 or 1; it is 1 exactly when
    [is_ipv4] is set, and on 0 the output structure is all zero. *)
Theorem pkt_parse_return_code host buf len r info :
  pkt_parse host buf len = Ok (r, info) ->
  (r = 1 /\ is_ipv4 info = 1) \/ (r = 0 /\ info = zero_info).
Proof.
  unfold pkt_parse. intros H.
  repeat match type of H with
         | context [if ?c then _ else _] => destruct c
         | context [bind ?m _] => destruct m; cbn [bind] in H
         end;
    try discriminate; inversion H; subst; cbn; auto.
Qed.

Lemma pkt_parse_return_code_witness :
  (1 = 1 /\ is_ipv4 (mk_pkt_info 1 0 16885952 33663168 0 0 20 0) = 1) \/
  (1 = 0 /\ mk_pkt_info 1 0 16885952 33663168 0 0 20 0 = zero_info).
Proof.
  apply (pkt_parse_return_code LittleEndian udp_packet 28).
  vm_compute. reflexivity.
Defined.

(** X3.  On success the reported IP header length is a multiple of 4
    between 0 and 60 that does not exceed the packet length, which is at
    least 20; when [is_tcp] is set, 20 bytes follow the IP header and the
    reported TCP header length is a multiple of 4 between 0 and 60. *)
Theorem pkt_parse_length_bounds host buf len info :
  pkt_parse host buf len = Ok (1, info) ->
  20 <= len /\
  0 <= ip_header_len info <= 60 /\ ip_header_len info mod 4 = 0 /\
  ip_header_len info <= len /\
  (is_tcp info = 1 ->
   ip_header_len info + 20 <= len /\
   0 <= tcp_header_len info <= 60 /\ tcp_header_len info mod 4 = 0).
Proof.
  unfold pkt_parse, sizeof_ip, sizeof_tcphdr. intros H.
  destruct (Z.ltb_spec len 20) as [|Hlen]; [discriminate|].
  destruct (read_u8 buf len off_ip_vhl) as [vhl| |]; cbn [bind] in H;
    try discriminate.
  destruct (negb (high_nibble vhl =? 4)); [discriminate|].
  pose proof (low_nibble_range vhl) as Hhl.
  destruct (Z.ltb_spec len (low_nibble vhl * 4)) as [|Hihl]; [discriminate|].
  destruct (read_4 buf len off_ip_src); cbn [bind] in H; try discriminate.
  destruct (read_4 buf len off_ip_dst); cbn [bind] in H; try discriminate.
  destruct (read_u8 buf len off_ip_p); cbn [bind] in H; try discriminate.
  destruct (negb (_ =? IPPROTO_TCP)).
  { inversion H; subst; cbn.
    rewrite Z.mod_mul by lia. repeat split; lia || discriminate. }
  destruct (Z.ltb_spec len (low_nibble vhl * 4 + 20)) as [|Htcp].
  { inversion H; subst; cbn.
    rewrite Z.mod_mul by lia. repeat split; lia || discriminate. }
  destruct (read_u8 buf len _) as [doff| |]; cbn [bind] in H;
    try discriminate.
  destruct (read_2 buf len _); cbn [bind] in H; try discriminate.
  destruct (read_2 buf len _); cbn [bind] in H; try discriminate.
  pose proof (high_nibble_range doff) as Hoff.
  inversion H; subst; cbn.
  rewrite !Z.mod_mul by lia. repeat split; lia.
Qed.

Lemma pkt_parse_length_bounds_witness :
  20 <= 40 /\
  0 <= 20 <= 60 /\ 20 mod 4 = 0 /\ 20 <= 40 /\
  (1 = 1 -> 20 + 20 <= 40 /\ 0 <= 20 <= 60 /\ 20 mod 4 = 0).
Proof.
  apply (pkt_parse_length_bounds LittleEndian test_packet 40
           (mk_pkt_info 1 1 16885952 33663168 53764 6400 20 20)).
  vm_compute. reflexivity.
Defined.

(** X4.  Addresses and ports are kept as on the wire: on success, whatever
    the byte order of the host, the storage of [ip_src] and [ip_dst] is bytes
    12..15 and 16..19 of the packet, and when [is_tcp] is set the storage of
    [tcp_src] and [tcp_dst] is the first four bytes after the IP header. *)
Theorem pkt_parse_fields_verbatim host buf len info :
  Forall is_byte buf -> len <= nbytes buf ->
  pkt_parse host buf len = Ok (1, info) ->
  store host 4 (ip_src info) = map (byte_at buf) [12; 13; 14; 15] /\
  store host 4 (ip_dst info) = map (byte_at buf) [16; 17; 18; 19] /\
  (is_tcp info = 1 ->
   store host 2 (tcp_src info) =
     map (fun i => byte_at buf (ip_header_len info + i)) [0; 1] /\
   store host 2 (tcp_dst info) =
     map (fun i => byte_at buf (ip_header_len info + i)) [2; 3]).
Proof.
  intros Hb Hbuf H. rewrite pkt_parse_in_bounds in H by assumption.
  cbv zeta in H.
  assert (S4 : forall a b c d,
             store host 4 (load host (map (byte_at buf) [a; b; c; d])) =
             map (byte_at buf) [a; b; c; d]).
  { intros. apply (store_load host (map (byte_at buf) [a; b; c; d])).
    cbn [map]. repeat constructor; now apply byte_at_is_byte. }
  assert (S2 : forall a b,
             store host 2 (load host [byte_at buf a; byte_at buf b]) =
             [byte_at buf a; byte_at buf b]).
  { intros. apply (store_load host [byte_at buf a; byte_at buf b]).
    repeat constructor; now apply byte_at_is_byte. }
  cbn [map] in S4.
  repeat match type of H with
         | context [if ?c then _ else _] => destruct c
         end;
    inversion H; subst;
    cbn [ip_src ip_dst tcp_src tcp_dst is_tcp ip_header_len map];
    rewrite ?S4, ?S2, ?Z.add_0_r; repeat split; discriminate || auto.
Qed.

Lemma pkt_parse_fields_verbatim_witness :
  store BigEndian 4 3232235777 = map (byte_at test_packet) [12; 13; 14; 15] /\
  store BigEndian 4 3232235778 = map (byte_at test_packet) [16; 17; 18; 19] /\
  (1 = 1 ->
   store BigEndian 2 1234 =
     map (fun i => byte_at test_packet (20 + i)) [0; 1] /\
   store BigEndian 2 25 =
     map (fun i => byte_at test_packet (20 + i)) [2; 3]).
Proof.
  apply (pkt_parse_fields_verbatim BigEndian test_packet 40
           (mk_pkt_info 1 1 3232235777 3232235778 1234 25 20 20)).
  - repeat constructor; unfold is_byte; lia.
  - vm_compute. discriminate.
  - vm_compute. reflexivity.
Defined.

(** X5.  The byte order of the host changes neither the verdict nor the
    lengths: two hosts agree on the return value, on [is_ipv4], [is_tcp],
    [ip_header_len] and [tcp_header_len], and fail on the same accesses. *)
Theorem pkt_parse_host_independent h1 h2 buf len :
  match pkt_parse h1 buf len, pkt_parse h2 buf len with
  | Ok (r1, i1), Ok (r2, i2) =>
      r1 = r2 /\ is_ipv4 i1 = is_ipv4 i2 /\ is_tcp i1 = is_tcp i2 /\
      ip_header_len i1 = ip_header_len i2 /\
      tcp_header_len i1 = tcp_header_len i2
  | Overread o1, Overread o2 => o1 = o2
  | Unmapped o1, Unmapped o2 => o1 = o2
  | _, _ => False
  end.
Proof.
  unfold pkt_parse.
  repeat match goal with
         | |- context [bind ?m _] => destruct m; cbn [bind]; auto
         | |- context [if ?c then _ else _] =>
             destruct c; cbn; auto 6
         end.
Qed.

(** ** tunnel_server.c: the forwarding loop *)

Section LoopMore.

Variable host : byte_order.

Lemma forwarding_loop_turn it its w :
  sig it = false -> running w <> 0 ->
  forwarding_loop host (it :: its) w =
  match loop_body host it w with
  | (Break, w') => Exited w'
  | (_, w') => forwarding_loop host its w'
  end.
Proof.
  intros Hs Hr. cbn [forwarding_loop]. rewrite Hs.
  apply Z.eqb_neq in Hr. now rewrite Hr.
Qed.

Lemma loop_body_eintr it w :
  sel it = SelError EINTR ->
  loop_body host it w =
  let '(f, w') := client_to_tun host (junk it) (set_errno EINTR w) in
  match f with
  | Fall => tun_to_client host w'
  | _ => (f, w')
  end.
Proof. intros Hsel. unfold loop_body. rewrite Hsel. reflexivity. Qed.

Lemma idle_loop its w :
  Forall idle_turn its -> running w <> 0 ->
  forwarding_loop host its w = Pending w.
Proof.
  induction 1 as [|it its [Hs Hsel] _ IH]; intros Hr; [reflexivity|].
  rewrite forwarding_loop_turn by assumption.
  unfold loop_body. rewrite Hsel. cbn. now apply IH.
Qed.

Lemma idle_then its1 its2 w :
  Forall idle_turn its1 -> running w <> 0 ->
  forwarding_loop host (its1 ++ its2) w = forwarding_loop host its2 w.
Proof.
  induction 1 as [|it its [Hs Hsel] _ IH]; intros Hr; [reflexivity|].
  rewrite <- app_comm_cons, forwarding_loop_turn by assumption.
  unfold loop_body. rewrite Hsel. cbn. now apply IH.
Qed.

(** The first receive of a step on a stream that has ended or fails. *)
Lemma client_to_tun_no_prefix stack w :
  sock_in w = [] \/ (exists e rest, sock_in w = RecvError e :: rest) ->
  exists w',
    client_to_tun host stack w = (Break, w') /\
    tun_written w' = tun_written w /\ wire w' = wire w /\
    recv_calls w' = recv_calls w ++ [4] /\ tun_in w' = tun_in w /\
    same_handles w w'.
Proof.
  intros [Hs|(e & rest & Hs)]; unfold client_to_tun, recv;
    cbn [sock_in log_recv]; rewrite Hs; cbn;
    eexists; (split; [reflexivity|]); unfold same_handles; cbn; auto 10.
Qed.

End LoopMore.

(** X6.  A session whose turns all time out stays in its loop and changes
    nothing: no receive, no send, no write, no handle touched. *)
Theorem idle_session_unchanged host its w :
  Forall idle_turn its -> running w <> 0 ->
  forwarding_loop host its w = Pending w.
Proof. apply idle_loop. Qed.

Lemma idle_session_unchanged_witness :
  forwarding_loop LittleEndian
    [mk_iter false SelTimeout []; mk_iter false SelTimeout []]
    (initial_world [Avail [0; 0; 0; 1; 9]] []) =
  Pending (initial_world [Avail [0; 0; 0; 1; 9]] []).
Proof.
  apply (idle_session_unchanged LittleEndian).
  - repeat constructor.
  - vm_compute. discriminate.
Defined.

(** X8.  Any failure of the receive for the length prefix ends the
    forwarding loop: end of stream, a fatal error, and also a would-block
    result (EAGAIN).  This holds when [select] reported the socket readable
    and when [select] was interrupted (EINTR), after which the socket is
    read as well.  Nothing is written or sent in that turn. *)
Theorem prefix_receive_failure_ends_loop host it its w :
  sig it = false -> running w <> 0 ->
  (exists t, sel it = SelReady true t) \/ sel it = SelError EINTR ->
  sock_in w = [] \/ (exists e rest, sock_in w = RecvError e :: rest) ->
  exists w',
    forwarding_loop host (it :: its) w = Exited w' /\
    tun_written w' = tun_written w /\ wire w' = wire w /\
    tun_in w' = tun_in w /\ recv_calls w' = recv_calls w ++ [4].
Proof.
  intros Hsig Hrun Hsel Hin.
  rewrite forwarding_loop_turn by assumption.
  destruct Hsel as [(t & Hsel)|Hsel].
  - rewrite (loop_body_ready host it w true t Hsel eq_refl).
    destruct (client_to_tun_no_prefix host (junk it) w Hin)
      as (w' & -> & H1 & H2 & H3 & H4 & _).
    exists w'. auto.
  - rewrite (loop_body_eintr host it w Hsel).
    destruct (client_to_tun_no_prefix host (junk it) (set_errno EINTR w))
      as (w' & -> & H1 & H2 & H3 & H4 & _); [exact Hin|].
    exists w'. auto.
Qed.

Lemma prefix_receive_failure_ends_loop_witness :
  exists w',
    forwarding_loop LittleEndian
      [mk_iter false (SelError EINTR) []; mk_iter false SelTimeout []]
      (initial_world [RecvError EAGAIN; Avail [0; 0; 0; 1; 9]] []) =
      Exited w' /\
    tun_written w' = [] /\ wire w' = [] /\ tun_in w' = [] /\
    recv_calls w' = [4].
Proof.
  apply (prefix_receive_failure_ends_loop LittleEndian
           (mk_iter false (SelError EINTR) [])
           [mk_iter false SelTimeout []]
           (initial_world [RecvError EAGAIN; Avail [0; 0; 0; 1; 9]] [])).
  - reflexivity.
  - vm_compute. discriminate.
  - right. reflexivity.
  - right. exists EAGAIN, [Avail [0; 0; 0; 1; 9]]. reflexivity.
Defined.

Section StepMore.

Variable host : byte_order.

Lemma recv_size n w r d w' :
  recv n w = (r, d, w') -> 0 <= n -> nbytes d <= n.
Proof.
  unfold recv. cbn [sock_in log_recv].
  destruct (sock_in w) as [|[bs|e] rest]; intros H Hn; inversion H; subst;
    unfold nbytes; cbn [length]; try lia.
  rewrite length_firstn. lia.
Qed.

(** What a decode step may add to the TUN side. *)
Lemma client_to_tun_writes stack w f w' :
  client_to_tun host stack w = (f, w') ->
  (tun_written w' = tun_written w /\ f <> Fall) \/
  (exists data, packet_sized data /\ f = Fall /\
     tun_written w' = tun_written w ++ [data]).
Proof.
  unfold client_to_tun.
  destruct (recv 4 w) as [[r d] w1] eqn:E1.
  apply recv_frame in E1. destruct E1 as (_ & Ht1 & _).
  destruct (r <=? 0).
  { intros H; inversion H; subst. left. split; [auto|discriminate]. }
  set (L := ntohl host (load host (received_into (firstn 4 stack) d))).
  destruct ((L >? 65535) || (L =? 0)) eqn:EL.
  { intros H; inversion H; subst. left. split; [auto|discriminate]. }
  assert (HL : 1 <= L <= 65535).
  { apply orb_false_iff in EL. destruct EL as [E1 E2].
    rewrite Z.gtb_ltb in E1. apply Z.ltb_ge in E1. apply Z.eqb_neq in E2.
    pose proof (ntohl_range host
                  (load host (received_into (firstn 4 stack) d))) as Hrange.
    fold L in Hrange. lia. }
  destruct (recv L w1) as [[r2 d2] w2] eqn:E2.
  pose proof (recv_size _ _ _ _ _ E2 ltac:(lia)) as Hsize.
  apply recv_frame in E2. destruct E2 as (_ & Ht2 & _ & _ & _ & Hd2).
  destruct (Z.leb_spec r2 0) as [Hle|Hpos]; intros Hres; inversion Hres; subst.
  - left. split; [congruence|discriminate].
  - right. destruct Hd2 as [->| ->]; [lia|].
    rewrite firstn_own_size. exists d2.
    split; [unfold packet_sized; lia|]. split; [reflexivity|].
    cbn. congruence.
Qed.

(** The payload receive of a step on a stream that has ended or fails. *)
Lemma client_to_tun_no_payload stack w prefix tail :
  Forall is_byte prefix -> length prefix = 4%nat ->
  1 <= be_decode prefix <= 65535 ->
  sock_in w = Avail prefix :: tail ->
  tail = [] \/ (exists e rest, tail = RecvError e :: rest) ->
  exists w',
    client_to_tun host stack w = (Continue, w') /\
    tun_written w' = tun_written w /\ wire w' = wire w /\
    tun_in w' = tun_in w /\ sock_in w' = tl tail /\
    recv_calls w' = recv_calls w ++ [4; be_decode prefix] /\
    running w' = running w.
Proof.
  intros Hb Hl HL Hs Htail.
  assert (Hr : recv 4 w = (4, prefix, set_sock_in tail (log_recv 4 w))).
  { rewrite <- (app_nil_r prefix) in Hs.
    rewrite (recv_prefix w prefix [] tail Hl Hs). reflexivity. }
  rewrite (client_to_tun_after_prefix host stack w prefix tail Hb Hl Hr).
  cbv zeta. rewrite length_bound_ok by assumption.
  destruct Htail as [->|(e & rest & ->)]; unfold recv;
    cbn [sock_in log_recv set_sock_in]; cbn;
    (eexists; split; [reflexivity|]); cbn; rewrite <- app_assoc;
    repeat split.
Qed.

End StepMore.

(** X9.  When the receive for the payload fails or finds the stream ended,
    the frame is dropped and the loop goes on, whatever the error: nothing is
    written to TUN, the TUN side is skipped in that turn, and the session
    stays open. *)
Theorem payload_receive_failure_drops_frame host it its w prefix tail t :
  sig it = false -> running w <> 0 -> sel it = SelReady true t ->
  Forall is_byte prefix -> length prefix = 4%nat ->
  1 <= be_decode prefix <= 65535 ->
  sock_in w = Avail prefix :: tail ->
  tail = [] \/ (exists e rest, tail = RecvError e :: rest) ->
  exists w',
    forwarding_loop host (it :: its) w = forwarding_loop host its w' /\
    tun_written w' = tun_written w /\ wire w' = wire w /\
    tun_in w' = tun_in w /\ sock_in w' = tl tail /\
    recv_calls w' = recv_calls w ++ [4; be_decode prefix].
Proof.
  intros Hsig Hrun Hsel Hb Hl HL Hs Htail.
  rewrite forwarding_loop_turn by assumption.
  rewrite (loop_body_ready host it w true t Hsel eq_refl).
  destruct (client_to_tun_no_payload host (junk it) w prefix tail
              Hb Hl HL Hs Htail) as (w' & -> & H1 & H2 & H3 & H4 & H5 & _).
  exists w'. auto 10.
Qed.

Lemma payload_receive_failure_drops_frame_witness :
  exists w',
    forwarding_loop LittleEndian
      [mk_iter false (SelReady true true) []]
      (initial_world [Avail [0; 0; 0; 2]; RecvError 104] [TunPacket [7]]) =
      forwarding_loop LittleEndian [] w' /\
    tun_written w' = [] /\ wire w' = [] /\
    tun_in w' = [TunPacket [7]] /\ sock_in w' = [] /\
    recv_calls w' = [4; 2].
Proof.
  apply (payload_receive_failure_drops_frame LittleEndian
           (mk_iter false (SelReady true true) []) []
           (initial_world [Avail [0; 0; 0; 2]; RecvError 104] [TunPacket [7]])
           [0; 0; 0; 2] [RecvError 104] true).
  - reflexivity.
  - vm_compute. discriminate.
  - reflexivity.
  - repeat constructor; unfold is_byte; lia.
  - reflexivity.
  - vm_compute. split; discriminate.
  - reflexivity.
  - right. exists 104, []. reflexivity.
Defined.

(** X10.  Whatever arrives on the socket, every buffer the loop writes to
    TUN holds between 1 and 65535 bytes, so the 65535-byte packet buffer is
    never exceeded; at most one buffer is written per turn and none that was
    written before is changed. *)
Theorem tun_writes_are_packet_sized host its w :
  exists new,
    tun_written (loop_world (forwarding_loop host its w)) =
      tun_written w ++ new /\
    Forall packet_sized new /\ (length new <= length its)%nat.
Proof.
  revert w. induction its as [|it its IH]; intros w.
  - exists []. cbn. rewrite app_nil_r. auto.
  - cbn [forwarding_loop].
    set (w0 := if sig it then signal_handler w else w).
    assert (H0 : tun_written w0 = tun_written w)
      by (subst w0; destruct (sig it); reflexivity).
    destruct (running w0 =? 0).
    { exists []. cbn. rewrite app_nil_r, H0. repeat split; auto; lia. }
    assert (Hbody : forall f w1, loop_body host it w0 = (f, w1) ->
              exists one, tun_written w1 = tun_written w ++ one /\
                Forall packet_sized one /\ (length one <= 1)%nat).
    { intros f w1. unfold loop_body.
      assert (Hsel : exists a c t e,
                 select (sel it) w0 = (a, (c, t), e) /\
                 tun_written e = tun_written w0).
      { destruct (sel it); cbn; do 4 eexists; split; reflexivity. }
      destruct Hsel as (a & c & t & e & -> & He).
      destruct ((a <? 0) && negb (errno e =? EINTR)).
      { intros H; inversion H; subst. exists []. rewrite app_nil_r.
        repeat split; auto; congruence. }
      destruct (a =? 0).
      { intros H; inversion H; subst. exists []. rewrite app_nil_r.
        repeat split; auto; congruence. }
      destruct (if c then client_to_tun host (junk it) e else (Fall, e))
        as [f1 w2] eqn:E1.
      assert (H2 : exists one, tun_written w2 = tun_written w ++ one /\
                Forall packet_sized one /\ (length one <= 1)%nat).
      { destruct c.
        - apply client_to_tun_writes in E1.
          destruct E1 as [[E1 _]|(data & Hd & _ & E1)].
          + exists []. rewrite app_nil_r. repeat split; auto; congruence.
          + exists [data]. repeat split; auto; congruence.
        - inversion E1; subst. exists []. rewrite app_nil_r.
          repeat split; auto; congruence. }
      destruct f1; try (intros H; inversion H; subst; exact H2).
      destruct t; [|intros H; inversion H; subst; exact H2].
      intros H. apply tun_to_client_frame_conditions in H.
      destruct H as (_ & _ & _ & Ht). rewrite Ht. exact H2. }
    destruct (loop_body host it w0) as [f w1] eqn:E.
    destruct (Hbody f w1 eq_refl) as (one & H1 & Hone & Hlen).
    assert (Hrest : exists new,
               tun_written (loop_world (forwarding_loop host its w1)) =
                 tun_written w ++ new /\
               Forall packet_sized new /\
               (length new <= S (length its))%nat).
    { destruct (IH w1) as (more & Hm & Hmore & Hml).
      exists (one ++ more). rewrite Hm, H1, <- app_assoc.
      repeat split; [now apply Forall_app|].
      rewrite length_app. lia. }
    destruct f; [exact Hrest|exact Hrest|].
    exists one. cbn [loop_world length]. repeat split; auto. lia.
Qed.

Section SidesMore.

Variable host : byte_order.

Lemma recv_tun_side n w r d w' :
  recv n w = (r, d, w') -> tun_side w' = tun_side w.
Proof.
  unfold recv, tun_side. cbn [sock_in log_recv].
  destruct (sock_in w) as [|[bs|e] rest]; intros H; inversion H; subst;
    reflexivity.
Qed.

Lemma client_to_tun_tun_side stack w f w' :
  client_to_tun host stack w = (f, w') -> tun_side w' = tun_side w.
Proof.
  unfold client_to_tun.
  destruct (recv 4 w) as [[r d] w1] eqn:E1. apply recv_tun_side in E1.
  destruct (r <=? 0); [intros H; inversion H; subst; exact E1|].
  destruct (_ || _); [intros H; inversion H; subst; exact E1|].
  destruct (recv _ w1) as [[r2 d2] w2] eqn:E2. apply recv_tun_side in E2.
  destruct (r2 <=? 0); intros H; inversion H; subst;
    [|change (tun_side (tun_write (firstn (Z.to_nat r2) d2) w2))
        with (tun_side w2)];
    congruence.
Qed.

Lemma tun_read_client_side n w r d w' :
  tun_read n w = (r, d, w') -> client_side w' = client_side w.
Proof.
  unfold tun_read, client_side.
  destruct (tun_in w) as [|[bs|e] rest]; intros H; inversion H; subst;
    reflexivity.
Qed.

Lemma send_client_side data w r w' :
  send data w = (r, w') -> client_side w' = client_side w.
Proof.
  unfold send, client_side.
  destruct (sock_out w) as [|[k|e] rest]; intros H; inversion H; subst;
    reflexivity.
Qed.

Lemma tun_to_client_client_side w f w' :
  tun_to_client host w = (f, w') -> client_side w' = client_side w.
Proof.
  unfold tun_to_client.
  destruct (tun_read 65535 w) as [[r d] w1] eqn:E1.
  apply tun_read_client_side in E1.
  destruct (r >? 0).
  - destruct (send _ w1) as [r2 w2] eqn:E2. apply send_client_side in E2.
    destruct (negb (r2 =? 4)).
    + destruct (negb _); intros H; inversion H; subst; congruence.
    + destruct (send _ w2) as [r3 w3] eqn:E3. apply send_client_side in E3.
      destruct (r3 <? 0); [destruct (negb _)|];
        intros H; inversion H; subst; congruence.
  - destruct (_ && _); intros H; inversion H; subst; congruence.
Qed.

Lemma loop_body_client_quiet it w f w' :
  client_quiet it -> loop_body host it w = (f, w') ->
  client_side w' = client_side w.
Proof.
  intros [Hsel|[(t & Hsel)|(e & Hsel & He)]]; unfold loop_body; rewrite Hsel;
    cbn [select].
  - cbn. intros H; inversion H; subst; reflexivity.
  - destruct t; cbn.
    + apply tun_to_client_client_side.
    + intros H; inversion H; subst; reflexivity.
  - cbn [errno set_errno]. apply Z.eqb_neq in He. rewrite He. cbn.
    intros H; inversion H; subst; reflexivity.
Qed.

Lemma loop_body_tun_quiet it w f w' :
  tun_quiet it -> loop_body host it w = (f, w') ->
  tun_side w' = tun_side w.
Proof.
  intros [Hsel|[(c & Hsel)|(e & Hsel & He)]]; unfold loop_body; rewrite Hsel;
    cbn [select].
  - cbn. intros H; inversion H; subst; reflexivity.
  - destruct c; cbn.
    + destruct (client_to_tun host (junk it) w) as [f1 w1] eqn:E.
      apply client_to_tun_tun_side in E.
      destruct f1; intros H; inversion H; subst; exact E.
    + intros H; inversion H; subst; reflexivity.
  - cbn [errno set_errno]. apply Z.eqb_neq in He. rewrite He. cbn.
    intros H; inversion H; subst; reflexivity.
Qed.

Lemma quiet_loop {A : Type} (side : world -> A) (quiet : iter_env -> Prop) :
  (forall w, side (signal_handler w) = side w) ->
  (forall it w f w', quiet it -> loop_body host it w = (f, w') ->
                     side w' = side w) ->
  forall its w, Forall quiet its ->
    side (loop_world (forwarding_loop host its w)) = side w.
Proof.
  intros Hsig Hbody its. induction its as [|it its IH]; intros w Hq;
    [reflexivity|].
  inversion Hq as [|? ? Hit Hits]; subst.
  cbn [forwarding_loop].
  set (w0 := if sig it then signal_handler w else w).
  assert (H0 : side w0 = side w)
    by (subst w0; destruct (sig it); auto).
  destruct (running w0 =? 0); [exact H0|].
  destruct (loop_body host it w0) as [f w1] eqn:E.
  apply (Hbody it w0 f w1 Hit) in E.
  destruct f; cbn [loop_world]; try rewrite (IH w1 Hits); congruence.
Qed.

Lemma client_quiet_loop its w :
  Forall client_quiet its ->
  client_side (loop_world (forwarding_loop host its w)) = client_side w.
Proof.
  apply (quiet_loop client_side client_quiet); [reflexivity|].
  apply loop_body_client_quiet.
Qed.

Lemma tun_quiet_loop its w :
  Forall tun_quiet its ->
  tun_side (loop_world (forwarding_loop host its w)) = tun_side w.
Proof.
  apply (quiet_loop tun_side tun_quiet); [reflexivity|].
  apply loop_body_tun_quiet.
Qed.

Lemma client_quiet_fields its w :
  Forall client_quiet its ->
  sock_in (loop_world (forwarding_loop host its w)) = sock_in w /\
  recv_calls (loop_world (forwarding_loop host its w)) = recv_calls w /\
  tun_written (loop_world (forwarding_loop host its w)) = tun_written w.
Proof.
  intros H. pose proof (client_quiet_loop its w H) as E.
  unfold client_side in E. inversion E. auto.
Qed.

Lemma tun_quiet_fields its w :
  Forall tun_quiet its ->
  tun_in (loop_world (forwarding_loop host its w)) = tun_in w /\
  sock_out (loop_world (forwarding_loop host its w)) = sock_out w /\
  wire (loop_world (forwarding_loop host its w)) = wire w.
Proof.
  intros H. pose proof (tun_quiet_loop its w H) as E.
  unfold tun_side in E. inversion E. auto.
Qed.

End SidesMore.

(** X11.  The two directions do not interfere.  As long as [select] never
    leads to the client socket being read, the loop makes no receive, leaves
    the incoming stream as it is and writes nothing to TUN, whatever the TUN
    side does; as long as it never leads to the TUN descriptor being read,
    the loop reads nothing from TUN and sends nothing to the client,
    whatever arrives on the socket. *)
Theorem directions_do_not_interfere host its w :
  (Forall client_quiet its ->
   sock_in (loop_world (forwarding_loop host its w)) = sock_in w /\
   recv_calls (loop_world (forwarding_loop host its w)) = recv_calls w /\
   tun_written (loop_world (forwarding_loop host its w)) = tun_written w) /\
  (Forall tun_quiet its ->
   tun_in (loop_world (forwarding_loop host its w)) = tun_in w /\
   sock_out (loop_world (forwarding_loop host its w)) = sock_out w /\
   wire (loop_world (forwarding_loop host its w)) = wire w).
Proof.
  split; [apply client_quiet_fields|apply tun_quiet_fields].
Qed.

Lemma directions_do_not_interfere_witness :
  wire (loop_world
          (forwarding_loop LittleEndian
             [mk_iter false (SelReady true false) []]
             (initial_world [Avail [0; 0; 0; 1; 9]] [TunPacket [7]]))) = [] /\
  recv_calls (loop_world
          (forwarding_loop LittleEndian
             [mk_iter false (SelReady false true) []]
             (initial_world [Avail [0; 0; 0; 1; 9]] [TunPacket [7]]))) = [].
Proof.
  split.
  - apply (proj2 (directions_do_not_interfere LittleEndian
                    [mk_iter false (SelReady true false) []]
                    (initial_world [Avail [0; 0; 0; 1; 9]] [TunPacket [7]]))).
    apply Forall_cons; [|apply Forall_nil].
    right; left. exists true. reflexivity.
  - apply (proj1 (directions_do_not_interfere LittleEndian
                    [mk_iter false (SelReady false true) []]
                    (initial_world [Avail [0; 0; 0; 1; 9]] [TunPacket [7]]))).
    apply Forall_cons; [|apply Forall_nil].
    right; left. exists true. reflexivity.
Defined.

Section EncodeMore.

Variable host : byte_order.

(** The encode step up to its first send, when TUN delivers a packet. *)
Lemma tun_to_client_after_read w payload rest :
  1 <= nbytes payload <= 65535 ->
  tun_in w = TunPacket payload :: rest ->
  tun_to_client host w =
  let w1 := set_tun_in rest w in
  let '(bytes_sent, w2) := send (be_encode 4 (nbytes payload)) w1 in
  if negb (bytes_sent =? 4) then
    if negb (would_block (errno w2)) then (Break, w2) else (Fall, w2)
  else
    let '(bytes_sent, w3) := send payload w2 in
    if bytes_sent <? 0 then
      if negb (would_block (errno w3)) then (Break, w3) else (Fall, w3)
    else (Fall, w3).
Proof.
  intros HN Htun. unfold tun_to_client, tun_read. rewrite Htun.
  rewrite firstn_all2 by (unfold nbytes in HN; lia).
  destruct (Z.gtb_spec (nbytes payload) 0) as [_|]; [|lia].
  rewrite Z.mod_small by lia.
  rewrite store_htonl by lia.
  rewrite firstn_own_size. reflexivity.
Qed.

Lemma short_size k (bs : list Z) :
  0 <= k < nbytes bs -> nbytes (firstn (Z.to_nat k) bs) = k.
Proof. unfold nbytes. intros H. rewrite length_firstn. lia. Qed.

Lemma full_size k (bs : list Z) :
  nbytes bs <= k -> firstn (Z.to_nat k) bs = bs.
Proof. unfold nbytes. intros H. apply firstn_all2. lia. Qed.

Lemma prefix_size v : nbytes (be_encode 4 v) = 4.
Proof. unfold nbytes. now rewrite be_encode_length. Qed.

End EncodeMore.

(** X12.  When the send of the length prefix does not take all four bytes,
    the payload is never sent.  After a short send the bytes taken stay on
    the wire, and whether the session closes depends on the [errno] an
    earlier call left behind; after a failed send nothing is on the wire and
    the session closes unless the error is a would-block. *)
Theorem prefix_send_incomplete host w payload rest ev srest :
  1 <= nbytes payload <= 65535 ->
  tun_in w = TunPacket payload :: rest ->
  sock_out w = ev :: srest ->
  (forall k, ev = Accept k -> 0 <= k < 4 ->
   exists w',
     tun_to_client host w =
       (if would_block (errno w) then Fall else Break, w') /\
     wire w' =
       wire w ++ [firstn (Z.to_nat k) (be_encode 4 (nbytes payload))] /\
     sock_out w' = srest /\ tun_in w' = rest) /\
  (forall e, ev = SendError e ->
   exists w',
     tun_to_client host w = (if would_block e then Fall else Break, w') /\
     wire w' = wire w /\ sock_out w' = srest /\ tun_in w' = rest).
Proof.
  intros HN Htun Hout. split.
  - intros k -> Hk.
    rewrite (tun_to_client_after_read host w payload rest HN Htun).
    cbv zeta. unfold send. cbn [sock_out set_tun_in]. rewrite Hout.
    rewrite short_size by (rewrite prefix_size; lia).
    destruct (Z.eqb_spec k 4); [lia|]. cbn [negb errno put_wire set_sock_out
      set_tun_in].
    destruct (would_block (errno w)); cbn [negb];
      (eexists; split; [reflexivity|]); cbn; auto.
  - intros e ->.
    rewrite (tun_to_client_after_read host w payload rest HN Htun).
    cbv zeta. unfold send. cbn [sock_out set_tun_in]. rewrite Hout.
    cbn [Z.eqb negb errno set_errno].
    destruct (would_block e); cbn [negb];
      (eexists; split; [reflexivity|]); cbn; auto.
Qed.

Lemma prefix_send_incomplete_witness :
  exists w',
    tun_to_client LittleEndian
      (mk_world 1 EAGAIN [] [Accept 2] [TunPacket [7; 8; 9]] [] [] []
                Opened Opened Opened) = (Fall, w') /\
    wire w' = [[0; 0]] /\ sock_out w' = [] /\ tun_in w' = [].
Proof.
  apply (proj1 (prefix_send_incomplete LittleEndian
                  (mk_world 1 EAGAIN [] [Accept 2] [TunPacket [7; 8; 9]]
                            [] [] [] Opened Opened Opened)
                  [7; 8; 9] [] (Accept 2) []
                  ltac:(vm_compute; split; discriminate)
                  eq_refl eq_refl) 2 eq_refl).
  lia.
Defined.

(** X13.  A short send of the payload is not noticed: once the prefix is
    out, a payload send that takes fewer bytes than the packet holds leaves
    on the wire a frame that declares the full length and carries less, and
    the loop goes on; a payload send that fails leaves the prefix alone on
    the wire, and the session closes unless the error is a would-block. *)
Theorem payload_send_incomplete host w payload rest k1 ev srest :
  1 <= nbytes payload <= 65535 ->
  tun_in w = TunPacket payload :: rest ->
  sock_out w = Accept k1 :: ev :: srest -> 4 <= k1 ->
  (forall k, ev = Accept k -> 0 <= k < nbytes payload ->
   exists w',
     tun_to_client host w = (Fall, w') /\
     wire w' = wire w ++ [be_encode 4 (nbytes payload);
                          firstn (Z.to_nat k) payload] /\
     nbytes (firstn (Z.to_nat k) payload) = k /\
     be_decode (be_encode 4 (nbytes payload)) = nbytes payload /\
     sock_out w' = srest) /\
  (forall e, ev = SendError e ->
   exists w',
     tun_to_client host w = (if would_block e then Fall else Break, w') /\
     wire w' = wire w ++ [be_encode 4 (nbytes payload)] /\
     sock_out w' = srest).
Proof.
  intros HN Htun Hout Hk1.
  assert (Hfirst :
            send (be_encode 4 (nbytes payload)) (set_tun_in rest w) =
            (4, put_wire (be_encode 4 (nbytes payload))
                  (set_sock_out (ev :: srest) (set_tun_in rest w)))).
  { unfold send. cbn [sock_out set_tun_in]. rewrite Hout.
    rewrite full_size by (rewrite prefix_size; lia).
    now rewrite prefix_size. }
  split.
  - intros k -> Hk.
    rewrite (tun_to_client_after_read host w payload rest HN Htun).
    cbv zeta. rewrite Hfirst. cbn [Z.eqb Pos.eqb negb].
    unfold send. cbn [sock_out put_wire set_sock_out].
    rewrite short_size by lia.
    destruct (Z.ltb_spec k 0); [lia|].
    eexists; split; [reflexivity|].
    cbn [wire sock_out put_wire set_sock_out set_tun_in].
    rewrite <- app_assoc.
    repeat split;
      first [apply short_size; lia | apply be_decode_encode; lia].
  - intros e ->.
    rewrite (tun_to_client_after_read host w payload rest HN Htun).
    cbv zeta. rewrite Hfirst. cbn [Z.eqb Pos.eqb negb].
    unfold send. cbn [sock_out put_wire set_sock_out].
    cbn [Z.ltb Z.compare errno set_errno].
    destruct (would_block e); cbn [negb];
      (eexists; split; [reflexivity|]); cbn; auto.
Qed.

Lemma payload_send_incomplete_witness :
  exists w',
    tun_to_client BigEndian
      (mk_world 1 0 [] [Accept 4; Accept 1] [TunPacket [7; 8; 9]] [] [] []
                Opened Opened Opened) = (Fall, w') /\
    wire w' = [[0; 0; 0; 3]; [7]] /\
    nbytes (firstn (Z.to_nat 1) [7; 8; 9]) = 1 /\
    be_decode (be_encode 4 (nbytes [7; 8; 9])) = nbytes [7; 8; 9] /\
    sock_out w' = [].
Proof.
  apply (proj1 (payload_send_incomplete BigEndian
                  (mk_world 1 0 [] [Accept 4; Accept 1] [TunPacket [7; 8; 9]]
                            [] [] [] Opened Opened Opened)
                  [7; 8; 9] [] 4 (Accept 1) []
                  ltac:(vm_compute; split; discriminate)
                  eq_refl eq_refl ltac:(lia)) 1 eq_refl).
  vm_compute. split; [discriminate|reflexivity].
Defined.

(** X14.  On the TUN side a would-block result keeps the session: when the
    read from TUN fails, the loop goes on if the error is EAGAIN and is left
    otherwise, and a read of no bytes is skipped; in each case nothing is
    sent to the client. *)
Theorem tun_read_failure host it its w ev rest :
  sig it = false -> running w <> 0 -> sel it = SelReady false true ->
  tun_in w = ev :: rest ->
  (forall e, ev = TunError e ->
   forwarding_loop host (it :: its) w =
   if would_block e
   then forwarding_loop host its (set_errno e (set_tun_in rest w))
   else Exited (set_errno e (set_tun_in rest w))) /\
  (ev = TunPacket [] ->
   forwarding_loop host (it :: its) w =
   forwarding_loop host its (set_tun_in rest w)).
Proof.
  intros Hsig Hrun Hsel Htun.
  rewrite forwarding_loop_turn by assumption.
  rewrite (loop_body_ready host it w false true Hsel eq_refl).
  cbv iota beta. unfold tun_to_client, tun_read. rewrite Htun. split.
  - intros e ->. cbn [Z.gtb Z.compare Z.ltb andb errno set_errno set_tun_in].
    destruct (would_block e); reflexivity.
  - intros ->. reflexivity.
Qed.

Lemma tun_read_failure_witness :
  forwarding_loop LittleEndian [mk_iter false (SelReady false true) []]
    (initial_world [] [TunError EAGAIN]) =
  Pending (set_errno EAGAIN (initial_world [] [])).
Proof.
  apply (proj1 (tun_read_failure LittleEndian
                  (mk_iter false (SelReady false true) []) []
                  (initial_world [] [TunError EAGAIN])
                  (TunError EAGAIN) [] eq_refl
                  ltac:(vm_compute; discriminate) eq_refl eq_refl)
               EAGAIN eq_refl).
Defined.

(** ** tunnel_server.c: set-up of a session *)

(** X15.  [create_tun_device] returns a negative value exactly when it
    leaves no descriptor open: a failed [open] acquires nothing, a failed
    [ioctl] closes what [open] returned, and on success the value returned
    is the descriptor from [open], left open.  The streams, the logs and
    the other handles do not change. *)
Theorem create_tun_device_result s w :
  tun_fd w = Unopened ->
  let '(r, w') := create_tun_device s w in
  (r < 0 <-> tun_fd w' <> Opened) /\
  (r < 0 -> r = -1 /\
            tun_fd w' = (if open_ret s <? 0 then Unopened else Released)) /\
  (0 <= r -> r = open_ret s /\ 0 <= ioctl_ret s /\ tun_fd w' = Opened) /\
  client_side w' = client_side w /\ tun_side w' = tun_side w /\
  client_fd w' = client_fd w /\ client_mem w' = client_mem w.
Proof.
  intros Htun. unfold create_tun_device.
  destruct (Z.ltb_spec (open_ret s) 0) as [Ho|Ho].
  - cbn [tun_fd set_errno client_fd client_mem]. rewrite Htun.
    repeat split; try lia; try discriminate; auto.
  - destruct (Z.ltb_spec (ioctl_ret s) 0) as [Hi|Hi];
      cbn [tun_fd set_tun_fd set_errno close_tun client_fd client_mem];
      rewrite Htun; cbn [acquire release];
      repeat split; try lia; try discriminate; auto;
      try (intros H; contradiction).
Qed.

Lemma create_tun_device_result_witness :
  let '(r, w') := create_tun_device (mk_setup 3 (-1) 0 0 2 25) (initial_world [] []) in
  (r < 0 <-> tun_fd w' <> Opened) /\
  (r < 0 -> r = -1 /\ tun_fd w' = Released) /\
  (0 <= r -> r = 3 /\ 0 <= -1 /\ tun_fd w' = Opened) /\
  client_side w' = client_side (initial_world [] []) /\
  tun_side w' = tun_side (initial_world [] []) /\
  client_fd w' = Opened /\ client_mem w' = Opened.
Proof.
  apply (create_tun_device_result (mk_setup 3 (-1) 0 0 2 25) (initial_world [] [])).
  reflexivity.
Defined.

(** X16.  While a session is in its forwarding loop it holds all three of
    its resources: the set-up succeeded, and the client socket, the session
    block and the TUN descriptor are open; none is released early, whatever
    happened in the turns so far. *)
Theorem forwarding_session_holds_resources host s its w w' :
  fresh_session w ->
  handle_client host s its w = Forwarding w' ->
  client_fd w' = Opened /\ client_mem w' = Opened /\ tun_fd w' = Opened /\
  0 <= open_ret s /\ 0 <= ioctl_ret s /\ addr_ret s = 0 /\ link_ret s = 0.
Proof.
  intros (Hfd & Hmem & Htun). rewrite handle_client_paths. cbv zeta.
  destruct (Z.ltb_spec (open_ret s) 0); [discriminate|].
  destruct (Z.ltb_spec (ioctl_ret s) 0); [discriminate|].
  destruct (Z.eqb_spec (addr_ret s) 0); cbn [negb orb]; [|discriminate].
  destruct (Z.eqb_spec (link_ret s) 0); cbn [negb]; [|discriminate].
  pose proof (forwarding_loop_handles host its
                (set_tun_fd (acquire (tun_fd w)) w)) as Hloop.
  destruct (forwarding_loop host its (set_tun_fd (acquire (tun_fd w)) w))
    as [w2|w2]; [discriminate|].
  destruct Hloop as (E1 & E2 & E3). cbn in E1, E2, E3.
  intros Hres; inversion Hres; subst.
  rewrite E1, E2, E3, Hfd, Hmem, Htun. cbn. auto 10.
Qed.

Lemma forwarding_session_holds_resources_witness :
  client_fd (put_tun [9] (set_sock_in [] (log_recv 1 (log_recv 4
     (set_tun_fd Opened (initial_world [Avail [0; 0; 0; 1; 9]] [])))))) =
    Opened.
Proof.
  apply (forwarding_session_holds_resources LittleEndian (mk_setup 3 0 0 0 2 25)
           [mk_iter false (SelReady true false) []]
           (initial_world [Avail [0; 0; 0; 1; 9]] [])).
  - repeat split.
  - vm_compute. reflexivity.
Defined.

(** X17.  A session whose TUN device cannot be created or configured
    returns at once: it reads nothing from the client, sends nothing, writes
    nothing to TUN and consumes none of the pending input, whatever events
    are waiting; it leaves [running] as it is. *)
Theorem setup_failure_does_no_io host s its w :
  open_ret s < 0 \/ ioctl_ret s < 0 \/ addr_ret s <> 0 \/ link_ret s <> 0 ->
  exists w',
    handle_client host s its w = Returned w' /\
    client_side w' = client_side w /\ tun_side w' = tun_side w /\
    running w' = running w.
Proof.
  intros H. rewrite handle_client_paths. cbv zeta.
  destruct (Z.ltb_spec (open_ret s) 0);
    [eexists; split; [reflexivity|]; cbn; auto|].
  destruct (Z.ltb_spec (ioctl_ret s) 0);
    [eexists; split; [reflexivity|]; cbn; auto|].
  destruct (Z.eqb_spec (addr_ret s) 0); cbn [negb orb];
    [|eexists; split; [reflexivity|]; cbn; auto].
  destruct (Z.eqb_spec (link_ret s) 0); cbn [negb];
    [lia|eexists; split; [reflexivity|]; cbn; auto].
Qed.

Lemma setup_failure_does_no_io_witness :
  exists w',
    handle_client LittleEndian (mk_setup (-1) 0 0 0 2 25)
      [mk_iter false (SelReady true true) []]
      (initial_world [Avail [0; 0; 0; 1; 9]] [TunPacket [7]]) = Returned w' /\
    client_side w' =
      client_side (initial_world [Avail [0; 0; 0; 1; 9]] [TunPacket [7]]) /\
    tun_side w' =
      tun_side (initial_world [Avail [0; 0; 0; 1; 9]] [TunPacket [7]]) /\
    running w' = 1.
Proof.
  apply (setup_failure_does_no_io LittleEndian (mk_setup (-1) 0 0 0 2 25)
           [mk_iter false (SelReady true true) []]
           (initial_world [Avail [0; 0; 0; 1; 9]] [TunPacket [7]])).
  left. vm_compute. reflexivity.
Defined.

(** ** tunnel_server.c: the accept loop *)

Section ServerMore.

Lemma accept_turn_keeps a st :
  srv_running (accept_turn a st) = srv_running st /\
  listen_fd (accept_turn a st) = listen_fd st /\
  exists added, conns (accept_turn a st) = conns st ++ added /\
    Forall settled added /\
    added = (if 0 <=? accept_ret a
             then [mk_conn (if starts_session a then Opened else Released)
                     (if malloc_ok a
                      then (if starts_session a then Opened else Released)
                      else Unopened)
                     (starts_session a)]
             else []).
Proof.
  unfold accept_turn, starts_session.
  destruct (Z.ltb_spec (accept_ret a) 0) as [Ha|Ha].
  - replace (0 <=? accept_ret a) with false by (symmetry; apply Z.leb_gt; lia).
    repeat split. exists []. rewrite app_nil_r. auto.
  - replace (0 <=? accept_ret a) with true by (symmetry; apply Z.leb_le; lia).
    destruct (malloc_ok a); cbn [negb andb];
      [destruct (pthread_ret a =? 0); cbn [negb]|];
      (split; [reflexivity|]); (split; [reflexivity|]);
      eexists; (split; [reflexivity|]); (split; [|reflexivity]);
      (apply Forall_cons; [|apply Forall_nil]); unfold settled; cbn; tauto.
Qed.

Lemma accept_loop_invariant accs st :
  let st' := match accept_loop accs st with Stopped x | Accepting x => x end in
  listen_fd st' = listen_fd st /\
  exists added, conns st' = conns st ++ added /\ Forall settled added /\
    (length added <= length accs)%nat.
Proof.
  revert st. induction accs as [|a accs IH]; intros st; cbn zeta.
  - cbn. split; [reflexivity|]. exists []. rewrite app_nil_r. auto.
  - cbn [accept_loop].
    set (st0 := if acc_sig a then srv_signal_handler st else st).
    assert (H0 : listen_fd st0 = listen_fd st /\ conns st0 = conns st)
      by (subst st0; destruct (acc_sig a); cbn; auto).
    destruct H0 as [Hl0 Hc0].
    destruct (srv_running st0 =? 0).
    { split; [exact Hl0|]. exists []. rewrite app_nil_r, Hc0.
      repeat split; auto. cbn. lia. }
    destruct (accept_turn_keeps a st0) as (_ & Hl1 & one & Hc1 & Hs1 & Hone).
    specialize (IH (accept_turn a st0)). cbn zeta in IH.
    destruct IH as (Hl2 & more & Hc2 & Hs2 & Hlen).
    split; [congruence|].
    exists (one ++ more). rewrite Hc2, Hc1, Hc0, <- app_assoc.
    repeat split; [now apply Forall_app|].
    rewrite length_app. cbn [length].
    assert (length one <= 1)%nat
      by (rewrite Hone; destruct (0 <=? accept_ret a); cbn; lia).
    lia.
Qed.

Lemma main_paths b accs st :
  main b accs st =
  if socket_ret b <? 0 then Exit 1 st
  else if (setsockopt_ret b <? 0) || (bind_ret b <? 0) || (listen_ret b <? 0)
  then Exit 1 (close_server (set_listen_fd (acquire (listen_fd st)) st))
  else
    match accept_loop accs (set_listen_fd (acquire (listen_fd st)) st) with
    | Stopped st' => Exit 0 (close_server st')
    | Accepting st' => Serving st'
    end.
Proof.
  unfold main.
  destruct (socket_ret b <? 0); [reflexivity|].
  destruct (setsockopt_ret b <? 0); [reflexivity|].
  destruct (bind_ret b <? 0); [reflexivity|].
  destruct (listen_ret b <? 0); reflexivity.
Qed.

(** The handles of a session that has returned. *)
Lemma returned_session_handles host s its w w' :
  fresh_session w ->
  handle_client host s its w = Returned w' ->
  client_fd w' = Released /\ client_mem w' = Released /\
  tun_fd w' = (if open_ret s <? 0 then Unopened else Released).
Proof.
  intros (Hfd & Hmem & Htun). rewrite handle_client_paths. cbv zeta.
  destruct (open_ret s <? 0).
  { intros H; inversion H; subst. cbn. now rewrite Hfd, Hmem, Htun. }
  destruct (ioctl_ret s <? 0).
  { intros H; inversion H; subst. cbn. now rewrite Hfd, Hmem, Htun. }
  destruct (_ || _).
  { intros H; inversion H; subst. cbn. now rewrite Hfd, Hmem, Htun. }
  pose proof (forwarding_loop_handles host its
                (set_tun_fd (acquire (tun_fd w)) w)) as Hloop.
  destruct (forwarding_loop host its (set_tun_fd (acquire (tun_fd w)) w))
    as [w2|w2]; [|discriminate].
  destruct Hloop as (E1 & E2 & E3). cbn in E1, E2, E3.
  intros H; inversion H; subst. cbn.
  now rewrite E1, E2, E3, Hfd, Hmem, Htun.
Qed.

Lemma accept_loop_stopped accs st st' :
  accept_loop accs st = Stopped st' -> srv_running st' = 0.
Proof.
  revert st. induction accs as [|a accs IH]; intros st; [discriminate|].
  cbn [accept_loop].
  destruct (Z.eqb_spec
              (srv_running (if acc_sig a then srv_signal_handler st else st))
              0) as [E|_].
  - intros H; inversion H; subst. exact E.
  - apply IH.
Qed.

Lemma accept_loop_app accs1 accs2 st st1 :
  accept_loop accs1 st = Accepting st1 ->
  accept_loop (accs1 ++ accs2) st = accept_loop accs2 st1.
Proof.
  revert st. induction accs1 as [|a accs1 IH]; intros st.
  - intros H; inversion H; subst. reflexivity.
  - cbn [accept_loop app].
    destruct (srv_running _ =? 0); [discriminate|]. apply IH.
Qed.

Lemma accept_loop_no_signal accs st :
  Forall (fun a => acc_sig a = false) accs -> srv_running st <> 0 ->
  accept_loop accs st = Accepting (fold_left (fun x a => accept_turn a x) accs st).
Proof.
  intros H. revert st. induction H as [|a accs Ha _ IH]; intros st Hr;
    [reflexivity|].
  cbn [accept_loop fold_left]. rewrite Ha.
  apply Z.eqb_neq in Hr. rewrite Hr. apply IH.
  destruct (accept_turn_keeps a st) as (-> & _). now apply Z.eqb_neq.
Qed.

Lemma fold_accept_turn accs st :
  srv_running (fold_left (fun x a => accept_turn a x) accs st) =
    srv_running st /\
  listen_fd (fold_left (fun x a => accept_turn a x) accs st) = listen_fd st /\
  sessions_started (fold_left (fun x a => accept_turn a x) accs st) =
    (sessions_started st + length (filter starts_session accs))%nat.
Proof.
  revert st. induction accs as [|a accs IH]; intros st; cbn [fold_left].
  - cbn. repeat split. lia.
  - destruct (IH (accept_turn a st)) as (-> & -> & ->).
    destruct (accept_turn_keeps a st) as (-> & -> & one & Hc & _ & Hone).
    repeat split. unfold sessions_started. rewrite Hc, filter_app, length_app.
    assert (Hcount : length (filter conn_session one) =
                     if starts_session a then 1%nat else 0%nat).
    { rewrite Hone. unfold starts_session.
      destruct (0 <=? accept_ret a); cbn [andb filter conn_session];
        [destruct (malloc_ok a && (pthread_ret a =? 0))|]; reflexivity. }
    rewrite Hcount. cbn [filter].
    destruct (starts_session a); cbn [length]; lia.
Qed.

End ServerMore.

(** X18.  [main] returns 1 exactly when setting up the listening socket
    failed, and then no connection was accepted; it returns 0 only after
    [running] was cleared.  Whenever it returns, the listening socket is
    closed if it had been created. *)
Theorem main_exit_code b accs st code st' :
  listen_fd st = Unopened ->
  main b accs st = Exit code st' ->
  (code = 1 <->
   socket_ret b < 0 \/ setsockopt_ret b < 0 \/ bind_ret b < 0 \/
   listen_ret b < 0) /\
  (code = 1 -> conns st' = conns st /\ srv_running st' = srv_running st) /\
  (code <> 1 -> code = 0 /\ srv_running st' = 0) /\
  listen_fd st' = (if socket_ret b <? 0 then Unopened else Released).
Proof.
  intros Hl. rewrite main_paths.
  destruct (Z.ltb_spec (socket_ret b) 0) as [Hs|Hs].
  { intros H; inversion H; subst. repeat split; auto; lia. }
  destruct (Z.ltb_spec (setsockopt_ret b) 0) as [Ho|Ho]; cbn [orb].
  { intros H; inversion H; subst. cbn. rewrite Hl.
    repeat split; auto; lia. }
  destruct (Z.ltb_spec (bind_ret b) 0) as [Hb|Hb]; cbn [orb].
  { intros H; inversion H; subst. cbn. rewrite Hl.
    repeat split; auto; lia. }
  destruct (Z.ltb_spec (listen_ret b) 0) as [Hli|Hli].
  { intros H; inversion H; subst. cbn. rewrite Hl.
    repeat split; auto; lia. }
  pose proof (accept_loop_invariant accs
                (set_listen_fd (acquire (listen_fd st)) st)) as Hinv.
  cbn zeta in Hinv.
  destruct (accept_loop accs (set_listen_fd (acquire (listen_fd st)) st))
    as [st1|st1] eqn:E; [|discriminate].
  apply accept_loop_stopped in E. destruct Hinv as (Hl1 & _).
  intros H; inversion H; subst. cbn. rewrite Hl1. cbn. rewrite Hl. cbn.
  repeat split; auto; try lia; try discriminate.
Qed.

Lemma main_exit_code_witness :
  (1 = 1 <-> 3 < 0 \/ 0 < 0 \/ -1 < 0 \/ 0 < 0) /\
  (1 = 1 -> conns (mk_server 1 Released []) = [] /\
            srv_running (mk_server 1 Released []) = 1) /\
  (1 <> 1 -> 1 = 0 /\ srv_running (mk_server 1 Released []) = 0) /\
  listen_fd (mk_server 1 Released []) = Released.
Proof.
  apply (main_exit_code (mk_boot 3 0 (-1) 0) [] boot_state 1
           (mk_server 1 Released [])); reflexivity.
Defined.

(** X19.  No outcome of [accept], [malloc] or [pthread_create] stops the
    server: with the listening socket set up and no signal delivered, [main]
    is still in its accept loop after any sequence of turns, with the
    listening socket open, and it has started exactly one session for each
    turn in which all three calls succeeded. *)
Theorem accept_failures_never_stop b accs st :
  listen_fd st = Unopened -> srv_running st <> 0 ->
  0 <= socket_ret b -> 0 <= setsockopt_ret b -> 0 <= bind_ret b ->
  0 <= listen_ret b ->
  Forall (fun a => acc_sig a = false) accs ->
  exists st',
    main b accs st = Serving st' /\
    listen_fd st' = Opened /\ srv_running st' = srv_running st /\
    sessions_started st' =
      (sessions_started st + length (filter starts_session accs))%nat.
Proof.
  intros Hl Hr Hs Ho Hb Hli Hsig. rewrite main_paths.
  destruct (Z.ltb_spec (socket_ret b) 0); [lia|].
  destruct (Z.ltb_spec (setsockopt_ret b) 0); [lia|].
  destruct (Z.ltb_spec (bind_ret b) 0); [lia|].
  destruct (Z.ltb_spec (listen_ret b) 0); [lia|]. cbn [orb].
  rewrite accept_loop_no_signal by assumption.
  eexists; split; [reflexivity|].
  destruct (fold_accept_turn accs (set_listen_fd (acquire (listen_fd st)) st))
    as (-> & -> & ->).
  cbn. rewrite Hl. auto.
Qed.

Lemma accept_failures_never_stop_witness :
  exists st',
    main (mk_boot 3 0 0 0)
      [mk_accept false (-1) true 0; mk_accept false 5 false 0;
       mk_accept false 6 true 11; mk_accept false 7 true 0]
      boot_state = Serving st' /\
    listen_fd st' = Opened /\ srv_running st' = 1 /\
    sessions_started st' = 1%nat.
Proof.
  apply (accept_failures_never_stop (mk_boot 3 0 0 0)
           [mk_accept false (-1) true 0; mk_accept false 5 false 0;
            mk_accept false 6 true 11; mk_accept false 7 true 0]
           boot_state).
  - reflexivity.
  - vm_compute. discriminate.
  - vm_compute. discriminate.
  - vm_compute. discriminate.
  - vm_compute. discriminate.
  - vm_compute. discriminate.
  - repeat constructor.
Defined.

(** X20.  [main] leaks no connection and touches none it has settled: after
    any run, every connection accepted is either owned by a session thread,
    with its socket and its block open, or has had its socket closed and its
    block, if one was allocated, freed by [main]; connections recorded
    earlier are unchanged, and at most one is added per turn. *)
Theorem accepted_connections_settled b accs st :
  exists added,
    conns (main_state (main b accs st)) = conns st ++ added /\
    Forall settled added /\ (length added <= length accs)%nat.
Proof.
  rewrite main_paths.
  destruct (socket_ret b <? 0).
  { exists []. cbn. rewrite app_nil_r. repeat split; auto. lia. }
  destruct (_ || _).
  { exists []. cbn. rewrite app_nil_r. repeat split; auto. lia. }
  pose proof (accept_loop_invariant accs
                (set_listen_fd (acquire (listen_fd st)) st)) as Hinv.
  cbn zeta in Hinv. destruct Hinv as (_ & added & Hc & Hs & Hlen).
  exists added.
  destruct (accept_loop accs (set_listen_fd (acquire (listen_fd st)) st));
    cbn in *; auto.
Qed.

(** X22.  End to end, nothing accepted is left open.  For every connection
    [main] has accepted: either [main] itself has closed its socket and
    freed its block, or a session thread owns it, starts on it as a fresh
    session, and whenever that session returns, for whatever reason, the
    socket is closed, the block freed and no TUN descriptor left open. *)
Theorem accepted_connection_is_released b accs c :
  In c (conns (main_state (main b accs boot_state))) ->
  (conn_session c = false /\ conn_fd c = Released /\ conn_mem c <> Opened) \/
  (conn_session c = true /\
   forall host s its r inp tun,
     fresh_session (session_world c r inp tun) /\
     forall w',
       handle_client host s its (session_world c r inp tun) = Returned w' ->
       client_fd w' = Released /\ client_mem w' = Released /\
       tun_fd w' <> Opened).
Proof.
  intros Hin.
  destruct (accepted_connections_settled b accs boot_state)
    as (added & Hc & Hs & _).
  rewrite Hc in Hin. cbn [conns boot_state app] in Hin.
  rewrite Forall_forall in Hs. specialize (Hs c Hin).
  destruct Hs as [(Hsess & Hfd & Hmem)|(Hsess & Hfd & Hmem)].
  - right. split; [exact Hsess|]. intros host s its r inp tun.
    assert (Hfresh : fresh_session (session_world c r inp tun))
      by (unfold fresh_session; cbn; auto).
    split; [exact Hfresh|]. intros w' Hret.
    destruct (returned_session_handles host s its _ w' Hfresh Hret)
      as (E1 & E2 & E3).
    rewrite E1, E2, E3. repeat split.
    destruct (open_ret s <? 0); discriminate.
  - left. repeat split; auto. destruct Hmem as [-> | ->]; discriminate.
Qed.

Lemma accepted_connection_is_released_witness :
  (conn_session (mk_conn Released Unopened false) = false /\
   conn_fd (mk_conn Released Unopened false) = Released /\
   conn_mem (mk_conn Released Unopened false) <> Opened) \/
  (conn_session (mk_conn Released Unopened false) = true /\
   forall host s its r inp tun,
     fresh_session (session_world (mk_conn Released Unopened false) r inp tun) /\
     forall w',
       handle_client host s its
         (session_world (mk_conn Released Unopened false) r inp tun) =
         Returned w' ->
       client_fd w' = Released /\ client_mem w' = Released /\
       tun_fd w' <> Opened).
Proof.
  apply (accepted_connection_is_released (mk_boot 3 0 0 0)
           [mk_accept false 5 false 0; mk_accept false 7 true 0]
           (mk_conn Released Unopened false)).
  vm_compute. left. reflexivity.
Defined.

(** ** tunnel_server.c: shutdown *)

Section ShutdownMore.

Variable host : byte_order.

(** The loop test that sees the signal ends the loop, whatever came
    before. *)
Lemma forwarding_loop_signal its1 it its2 w :
  sig it = true ->
  forwarding_loop host (its1 ++ it :: its2) w =
  Exited (match forwarding_loop host its1 w with
          | Exited w1 => w1
          | Pending w1 => signal_handler w1
          end).
Proof.
  intros Hsig. revert w. induction its1 as [|i its1 IH]; intros w.
  - cbn [app forwarding_loop]. rewrite Hsig. reflexivity.
  - cbn [app forwarding_loop].
    destruct (running _ =? 0); [reflexivity|].
    destruct (loop_body host i _) as [[| |] w1]; [apply IH|apply IH|].
    reflexivity.
Qed.

Lemma accept_loop_signal accs1 a accs2 st :
  acc_sig a = true ->
  accept_loop (accs1 ++ a :: accs2) st =
  Stopped (match accept_loop accs1 st with
           | Stopped st1 => st1
           | Accepting st1 => srv_signal_handler st1
           end).
Proof.
  intros Hsig. revert st. induction accs1 as [|i accs1 IH]; intros st.
  - cbn [app accept_loop]. rewrite Hsig. reflexivity.
  - cbn [app accept_loop].
    destruct (srv_running _ =? 0); [reflexivity|]. apply IH.
Qed.

End ShutdownMore.

(** X7.  Shutdown of a session.  The first loop test after SIGINT or SIGTERM
    was handled ends the session: no turn from that test on is run, so
    nothing is received, sent, written or consumed beyond what the turns
    before it did (a turn whose [select] the signal interrupted is one of
    those and still runs its receive, write and send), and the session
    returns with its socket, its block and its TUN descriptor released. *)
Theorem shutdown_ends_session host s its1 it its2 w :
  fresh_session w ->
  0 <= open_ret s -> 0 <= ioctl_ret s -> addr_ret s = 0 -> link_ret s = 0 ->
  sig it = true ->
  exists w',
    handle_client host s (its1 ++ it :: its2) w = Returned w' /\
    client_side w' =
      client_side (loop_world (forwarding_loop host its1
                                 (snd (create_tun_device s w)))) /\
    tun_side w' =
      tun_side (loop_world (forwarding_loop host its1
                              (snd (create_tun_device s w)))) /\
    client_fd w' = Released /\ client_mem w' = Released /\
    tun_fd w' = Released.
Proof.
  intros (Hfd & Hmem & Htun) Ho Hi Ha Hl Hsig.
  rewrite handle_client_paths. cbv zeta. unfold create_tun_device.
  destruct (Z.ltb_spec (open_ret s) 0); [lia|].
  destruct (Z.ltb_spec (ioctl_ret s) 0); [lia|].
  rewrite Ha, Hl. cbn [Z.eqb negb orb snd].
  rewrite forwarding_loop_signal by assumption.
  pose proof (forwarding_loop_handles host its1
                (set_tun_fd (acquire (tun_fd w)) w)) as Hh.
  destruct (forwarding_loop host its1 (set_tun_fd (acquire (tun_fd w)) w))
    as [w1|w1]; destruct Hh as (E1 & E2 & E3); cbn in E1, E2, E3;
    (eexists; split; [reflexivity|]); cbn;
    rewrite E1, E2, E3, Hfd, Hmem, Htun; cbn; repeat split.
Qed.

Lemma shutdown_ends_session_witness :
  exists w',
    handle_client LittleEndian (mk_setup 3 0 0 0 2 25)
      ([mk_iter false (SelError EINTR) [0; 0; 0; 0]] ++
       mk_iter true (SelReady true true) [] :: [mk_iter false SelTimeout []])
      (initial_world [Avail [0; 0; 0; 1; 9; 0; 0; 0; 1; 8]] [TunPacket [7]])
      = Returned w' /\
    client_side w' = ([Avail [0; 0; 0; 1; 8]], [4; 1], [[9]]) /\
    tun_side w' = ([], [], [[0; 0; 0; 1]; [7]]) /\
    client_fd w' = Released /\ client_mem w' = Released /\
    tun_fd w' = Released.
Proof.
  apply (shutdown_ends_session LittleEndian (mk_setup 3 0 0 0 2 25)
           [mk_iter false (SelError EINTR) [0; 0; 0; 0]]
           (mk_iter true (SelReady true true) [])
           [mk_iter false SelTimeout []]
           (initial_world [Avail [0; 0; 0; 1; 9; 0; 0; 0; 1; 8]]
                          [TunPacket [7]])).
  - repeat split.
  - vm_compute. discriminate.
  - vm_compute. discriminate.
  - reflexivity.
  - reflexivity.
  - reflexivity.
Defined.

(** X21.  Shutdown of the server.  With the listening socket set up, the
    first loop test after SIGINT or SIGTERM was handled ends the accept
    loop: [main] returns 0 with the listening socket closed and [running]
    cleared, no turn from that test on is served, and the connections are
    exactly those of the turns before it (a turn whose [accept] was blocked
    when the signal came is one of those and is still served). *)
Theorem shutdown_ends_accept_loop b accs1 a accs2 st :
  listen_fd st = Unopened ->
  0 <= socket_ret b -> 0 <= setsockopt_ret b -> 0 <= bind_ret b ->
  0 <= listen_ret b ->
  acc_sig a = true ->
  exists st',
    main b (accs1 ++ a :: accs2) st = Exit 0 st' /\
    conns st' = conns (main_state (main b accs1 st)) /\
    sessions_started st' = sessions_started (main_state (main b accs1 st)) /\
    listen_fd st' = Released /\ srv_running st' = 0.
Proof.
  intros Hl Hs Ho Hb Hli Hsig. rewrite !main_paths.
  destruct (Z.ltb_spec (socket_ret b) 0); [lia|].
  destruct (Z.ltb_spec (setsockopt_ret b) 0); [lia|].
  destruct (Z.ltb_spec (bind_ret b) 0); [lia|].
  destruct (Z.ltb_spec (listen_ret b) 0); [lia|]. cbn [orb].
  rewrite accept_loop_signal by assumption.
  pose proof (accept_loop_invariant accs1
                (set_listen_fd (acquire (listen_fd st)) st)) as Hinv.
  cbn zeta in Hinv. destruct Hinv as (Hfd & _).
  destruct (accept_loop accs1 (set_listen_fd (acquire (listen_fd st)) st))
    as [st1|st1] eqn:E; (eexists; split; [reflexivity|]);
    unfold sessions_started; cbn; rewrite Hfd; cbn; rewrite Hl; cbn;
    repeat split.
  now apply accept_loop_stopped in E.
Qed.

Lemma shutdown_ends_accept_loop_witness :
  exists st',
    main (mk_boot 3 0 0 0)
      ([mk_accept false 5 true 0] ++
       mk_accept true 6 true 0 :: [mk_accept false 7 true 0])
      boot_state = Exit 0 st' /\
    conns st' = [mk_conn Opened Opened true] /\
    sessions_started st' = 1%nat /\
    listen_fd st' = Released /\ srv_running st' = 0.
Proof.
  apply (shutdown_ends_accept_loop (mk_boot 3 0 0 0)
           [mk_accept false 5 true 0] (mk_accept true 6 true 0)
           [mk_accept false 7 true 0] boot_state).
  - reflexivity.
  - vm_compute. discriminate.
  - vm_compute. discriminate.
  - vm_compute. discriminate.
  - vm_compute. discriminate.
  - reflexivity.
Defined.

(** ** tunnel_server.c: frames on the stream *)

Section FramingFacts.

Variable host : byte_order.

(** A send that the socket takes whole. *)
Lemma send_whole data w :
  takes_whole (nbytes data) (sock_out w) = true ->
  exists w',
    send data w = (nbytes data, w') /\
    wire w' = wire w ++ [data] /\ sock_out w' = tl (sock_out w) /\
    errno w' = errno w.
Proof.
  unfold send, takes_whole.
  destruct (sock_out w) as [|[k|e] rest] eqn:E; intros H; try discriminate.
  - eexists; split; [reflexivity|]. cbn. rewrite E. auto.
  - apply Z.leb_le in H. rewrite full_size by assumption.
    eexists; split; [reflexivity|]. cbn. auto.
Qed.

(** The encode step when both of its sends are taken whole. *)
Lemma tun_to_client_whole w payload rest :
  1 <= nbytes payload <= 65535 ->
  tun_in w = TunPacket payload :: rest ->
  takes_whole 4 (sock_out w) = true ->
  takes_whole (nbytes payload) (tl (sock_out w)) = true ->
  exists w',
    tun_to_client host w = (Fall, w') /\
    wire w' = wire w ++ [be_encode 4 (nbytes payload); payload] /\
    sock_out w' = tl (tl (sock_out w)).
Proof.
  intros HN Htun H1 H2.
  rewrite (tun_to_client_after_read host w payload rest HN Htun). cbv zeta.
  destruct (send_whole (be_encode 4 (nbytes payload)) (set_tun_in rest w))
    as (w2 & E2 & Hw2 & Ho2 & _).
  { rewrite prefix_size. exact H1. }
  rewrite E2, prefix_size. cbn [Z.eqb Pos.eqb negb].
  destruct (send_whole payload w2) as (w3 & E3 & Hw3 & Ho3 & _).
  { rewrite Ho2. exact H2. }
  rewrite E3.
  destruct (Z.ltb_spec (nbytes payload) 0); [lia|].
  eexists; split; [reflexivity|].
  rewrite Hw3, Hw2, Ho3, Ho2, <- app_assoc. auto.
Qed.

Lemma payload_nonempty (payload : list Z) :
  1 <= nbytes payload -> payload <> [].
Proof. intros H ->. unfold nbytes in H. cbn in H. lia. Qed.

Lemma firstn_own_app (l r : list Z) :
  firstn (Z.to_nat (nbytes l)) (l ++ r) = l.
Proof. unfold nbytes. rewrite Nat2Z.id. now apply firstn_exact. Qed.

Lemma skipn_own_app (l r : list Z) :
  skipn (Z.to_nat (nbytes l)) (l ++ r) = r.
Proof. unfold nbytes. rewrite Nat2Z.id. now apply skipn_exact. Qed.

(** The decode step on a frame whose prefix and payload each arrive whole,
    whatever follows the payload. *)
Lemma client_to_tun_whole_frame stack w payload more rest :
  1 <= nbytes payload <= 65535 ->
  sock_in w = Avail (frame_of payload ++ more) :: rest \/
  sock_in w =
    Avail (be_encode 4 (nbytes payload)) :: Avail (payload ++ more) :: rest ->
  client_to_tun host stack w =
  (Fall,
   put_tun payload
     (set_sock_in (requeue more rest)
        (log_recv (nbytes payload) (log_recv 4 w)))).
Proof.
  intros HN Hs.
  assert (Hdec : be_decode (be_encode 4 (nbytes payload)) = nbytes payload)
    by (apply be_decode_encode; lia).
  assert (Hne : payload ++ more <> []).
  { pose proof (payload_nonempty payload ltac:(lia)).
    destruct payload; [contradiction|discriminate]. }
  rewrite (client_to_tun_frame host stack w
             (be_encode 4 (nbytes payload)) (payload ++ more) rest
             (be_encode_bytes 4 _) (be_encode_length 4 _)).
  - rewrite Hdec, firstn_own_app, skipn_own_app. reflexivity.
  - rewrite Hdec. exact HN.
  - exact Hne.
  - unfold frame_of in Hs. rewrite <- app_assoc in Hs. exact Hs.
Qed.

(** A turn that drops a malformed length. *)
Lemma bad_length_turn it its w bad tail rest t :
  sig it = false -> running w <> 0 -> sel it = SelReady true t ->
  Forall is_byte bad -> length bad = 4%nat ->
  be_decode bad = 0 \/ 65535 < be_decode bad ->
  sock_in w = Avail (bad ++ tail) :: rest ->
  forwarding_loop host (it :: its) w =
  forwarding_loop host its
    (set_sock_in (requeue tail rest) (log_recv 4 w)).
Proof.
  intros Hsig Hrun Hsel Hb Hl Hbad Hin.
  rewrite forwarding_loop_turn by assumption.
  rewrite (loop_body_ready host it w true t Hsel eq_refl).
  rewrite (client_to_tun_bad_length host (junk it) w bad tail rest
             Hb Hl Hbad Hin).
  reflexivity.
Qed.

(** A turn that decodes a frame arriving whole. *)
Lemma whole_frame_turn it its w payload more rest :
  sig it = false -> running w <> 0 -> sel it = SelReady true false ->
  1 <= nbytes payload <= 65535 ->
  sock_in w = Avail (frame_of payload ++ more) :: rest \/
  sock_in w =
    Avail (be_encode 4 (nbytes payload)) :: Avail (payload ++ more) :: rest ->
  forwarding_loop host (it :: its) w =
  forwarding_loop host its
    (put_tun payload
       (set_sock_in (requeue more rest)
          (log_recv (nbytes payload) (log_recv 4 w)))).
Proof.
  intros Hsig Hrun Hsel HN Hin.
  rewrite forwarding_loop_turn by assumption.
  rewrite (loop_body_ready host it w true false Hsel eq_refl).
  rewrite (client_to_tun_whole_frame (junk it) w payload more rest HN Hin).
  reflexivity.
Qed.

Lemma requeue_cons b (l : list Z) rest :
  requeue (b :: l) rest = Avail (b :: l) :: rest.
Proof. reflexivity. Qed.

(** Payload bytes that follow a rejected length are read as a frame: here
    the first thing handed to TUN is a piece of the rejected frame. *)
Lemma oversized_payload_is_forwarded stack (fill follow : list Z) w :
  running w <> 0 ->
  sock_in w =
    [Avail ((be_encode 4 65536 ++ be_encode 4 3 ++ [7; 7; 7] ++ fill)
            ++ follow)] ->
  tun_written
    (loop_world
       (forwarding_loop host [client_turn stack; client_turn stack] w)) =
  tun_written w ++ [[7; 7; 7]].
Proof.
  intros Hrun Hin.
  rewrite <- !app_assoc in Hin.
  rewrite (bad_length_turn (client_turn stack) _ w (be_encode 4 65536)
             (be_encode 4 3 ++ [7; 7; 7] ++ fill ++ follow) [] false
             eq_refl Hrun eq_refl (be_encode_bytes 4 _) eq_refl
             (or_intror eq_refl) Hin).
  set (w1 := set_sock_in
               (requeue (be_encode 4 3 ++ [7; 7; 7] ++ fill ++ follow) [])
               (log_recv 4 w)).
  assert (Hin1 : sock_in w1 = [Avail (frame_of [7; 7; 7] ++ fill ++ follow)])
    by reflexivity.
  rewrite (whole_frame_turn (client_turn stack) [] w1 [7; 7; 7]
             (fill ++ follow) [] eq_refl Hrun eq_refl
             ltac:(split; discriminate) (or_introl Hin1)).
  reflexivity.
Qed.

End FramingFacts.

(** C3 (as stated).  The round trip does not hold for every run.  On the
    decoding side, the frame of the payload 1,2,3 whose payload arrives in
    segments of one and two bytes gives the payload 1 alone; on the encoding
    side, a socket that takes only one byte of the payload 7,8,9 leaves on
    the wire less than the frame. *)
Lemma round_trip_needs_whole_transfers :
  ~ decode_yields_payload LittleEndian [0; 0; 0; 0] [1; 2; 3]
      [[0; 0; 0; 3]; [1]; [2; 3]] /\
  ~ encode_emits_frame LittleEndian short_send_world [7; 8; 9].
Proof.
  split.
  - intros H.
    specialize (H eq_refl
                  (initial_world [Avail [0; 0; 0; 3]; Avail [1]; Avail [2; 3]]
                                 [])
                  eq_refl).
    vm_compute in H. discriminate.
  - intros H. specialize (H [] eq_refl). vm_compute in H. discriminate.
Qed.

(** C3 (amended).  Round trip under whole transfers.  For a packet of [N]
    bytes, [1 <= N <= 65535], read from TUN: when the socket takes each of
    the two sends whole, the wire carries the 4-byte network-order encoding
    of [N] and then the packet; and when a receiver of whatever byte order
    finds the prefix whole at its first receive and the payload whole at its
    second (the frame arriving as the two segments sent or as one, whatever
    follows it), its decode step requests [N] payload bytes, hands to TUN
    exactly the same [N] bytes and leaves what follows the frame pending. *)
Theorem frame_round_trip sender receiver payload w_tx rest_tun :
  1 <= nbytes payload <= 65535 ->
  tun_in w_tx = TunPacket payload :: rest_tun ->
  takes_whole 4 (sock_out w_tx) = true ->
  takes_whole (nbytes payload) (tl (sock_out w_tx)) = true ->
  exists w_tx',
    tun_to_client sender w_tx = (Fall, w_tx') /\
    wire w_tx' = wire w_tx ++ [be_encode 4 (nbytes payload); payload] /\
    forall stack w_rx more rest,
      sock_in w_rx =
        Avail (be_encode 4 (nbytes payload)) :: Avail (payload ++ more)
          :: rest \/
      sock_in w_rx = Avail (frame_of payload ++ more) :: rest ->
      exists w_rx',
        client_to_tun receiver stack w_rx = (Fall, w_rx') /\
        recv_calls w_rx' = recv_calls w_rx ++ [4; nbytes payload] /\
        tun_written w_rx' = tun_written w_rx ++ [payload] /\
        sock_in w_rx' = requeue more rest.
Proof.
  intros HN Htun H1 H2.
  destruct (tun_to_client_whole sender w_tx payload rest_tun HN Htun H1 H2)
    as (w_tx' & Etx & Hwire & _).
  exists w_tx'. split; [exact Etx|]. split; [exact Hwire|].
  intros stack w_rx more rest Hs.
  rewrite (client_to_tun_whole_frame receiver stack w_rx payload more rest HN)
    by tauto.
  eexists; split; [reflexivity|].
  cbn [recv_calls tun_written sock_in put_tun set_sock_in log_recv].
  rewrite <- app_assoc. repeat split.
Qed.

Lemma frame_round_trip_witness :
  exists w_rx',
    client_to_tun BigEndian [0; 0; 0; 0]
      (initial_world [Avail [0; 0; 0; 3]; Avail [7; 8; 9; 0; 0]] []) =
      (Fall, w_rx') /\
    recv_calls w_rx' = [4; 3] /\
    tun_written w_rx' = [[7; 8; 9]] /\
    sock_in w_rx' = [Avail [0; 0]].
Proof.
  destruct (frame_round_trip LittleEndian BigEndian [7; 8; 9]
              (mk_world 1 0 [] [Accept 4; Accept 8] [TunPacket [7; 8; 9]]
                        [] [] [] Opened Opened Opened) [])
    as (w_tx' & _ & _ & Hrx).
  - vm_compute. split; discriminate.
  - reflexivity.
  - reflexivity.
  - reflexivity.
  - apply (Hrx [0; 0; 0; 0]
             (initial_world [Avail [0; 0; 0; 3]; Avail [7; 8; 9; 0; 0]] [])
             [0; 0] []).
    left. reflexivity.
Defined.

(** C4 (as stated).  The frame that follows a rejected one is not always
    forwarded.  [oversized_frame] is a complete frame that declares 65536
    bytes and carries them: its length is dropped, its payload is then read
    as frames, and the first buffer handed to TUN is 7,7,7 out of that
    payload instead of the payload 5,6 of the well-formed frame behind it
    (buffers handed to TUN are never taken back).  And behind a frame
    declaring 0, a well-formed frame whose payload arrives in two segments
    is forwarded cut to its first segment. *)
Lemma next_frame_can_be_lost :
  nbytes oversized_payload = 65536 /\
  oversized_frame = frame_of oversized_payload /\
  ~ forwards_next_frame LittleEndian [0; 0; 0; 0] oversized_frame [5; 6]
      [oversized_frame ++ frame_of [5; 6]] /\
  ~ forwards_next_frame LittleEndian [0; 0; 0; 0] (be_encode 4 0) [5; 6]
      [be_encode 4 0 ++ be_encode 4 2 ++ [5]; [6]].
Proof.
  assert (Hsize : nbytes oversized_payload = 65536).
  { unfold oversized_payload, filler, nbytes.
    rewrite !length_app, repeat_length, be_encode_length.
    cbn [length]. lia. }
  split; [exact Hsize|]. split; [|split].
  - unfold frame_of. rewrite Hsize. reflexivity.
  - intros H. unfold forwards_next_frame in H.
    assert (Hc : concat [oversized_frame ++ frame_of [5; 6]] =
                 oversized_frame ++ frame_of [5; 6])
      by (cbn [concat]; apply app_nil_r).
    set (w0 := initial_world
                 [Avail (oversized_frame ++ frame_of [5; 6])] []).
    assert (Hrun : running w0 <> 0)
      by (subst w0; cbn [running initial_world]; discriminate).
    specialize (H Hc w0 eq_refl Hrun).
    rewrite (oversized_payload_is_forwarded LittleEndian [0; 0; 0; 0]
               filler (frame_of [5; 6]) w0 Hrun eq_refl) in H.
    subst w0.
    cbn [tun_written initial_world app] in H. discriminate H.
  - intros H.
    specialize (H eq_refl
                  (initial_world
                     [Avail (be_encode 4 0 ++ be_encode 4 2 ++ [5]);
                      Avail [6]] [])
                  eq_refl ltac:(vm_compute; discriminate)).
    vm_compute in H. discriminate.
Qed.

(** C4 (amended).  A length prefix that is received whole and decodes to 0
    or to more than 65535 is dropped: exactly its 4 bytes are consumed,
    nothing is handed to TUN or sent, no handle is touched, and the loop
    goes on.  The bytes that follow those 4 bytes are read as the next
    frame: when a well-formed frame follows them directly and its prefix
    and payload each arrive whole, the next turn decodes it, hands its
    payload to TUN unchanged and leaves the session in its loop. *)
Theorem bad_length_then_next_frame host it1 it2 t1 w bad tail rest :
  sig it1 = false -> sig it2 = false -> running w <> 0 ->
  sel it1 = SelReady true t1 -> sel it2 = SelReady true false ->
  Forall is_byte bad -> length bad = 4%nat ->
  be_decode bad = 0 \/ 65535 < be_decode bad ->
  sock_in w = Avail (bad ++ tail) :: rest ->
  (exists w1,
     client_to_tun host (junk it1) w = (Continue, w1) /\
     recv_calls w1 = recv_calls w ++ [4] /\
     sock_in w1 = requeue tail rest /\
     tun_written w1 = tun_written w /\ wire w1 = wire w /\
     same_handles w w1 /\
     forall its,
       forwarding_loop host (it1 :: its) w = forwarding_loop host its w1) /\
  (forall payload more rest',
     1 <= nbytes payload <= 65535 ->
     requeue tail rest = Avail (frame_of payload ++ more) :: rest' \/
     requeue tail rest =
       Avail (be_encode 4 (nbytes payload)) :: Avail (payload ++ more)
         :: rest' ->
     exists w2,
       forwarding_loop host [it1; it2] w = Pending w2 /\
       tun_written w2 = tun_written w ++ [payload] /\
       recv_calls w2 = recv_calls w ++ [4; 4; nbytes payload] /\
       sock_in w2 = requeue more rest' /\ same_handles w w2).
Proof.
  intros Hs1 Hs2 Hrun Hsel1 Hsel2 Hb Hl Hbad Hin.
  pose proof (client_to_tun_bad_length host (junk it1) w bad tail rest
                Hb Hl Hbad Hin) as Hstep1.
  set (w1 := set_sock_in (requeue tail rest) (log_recv 4 w)) in *.
  split.
  - exists w1. split; [exact Hstep1|].
    repeat split; try reflexivity.
    intros its. apply (bad_length_turn host it1 its w bad tail rest t1);
      assumption.
  - intros payload more rest' HN Hnext.
    rewrite (bad_length_turn host it1 [it2] w bad tail rest t1) by assumption.
    fold w1.
    rewrite (whole_frame_turn host it2 [] w1 payload more rest' Hs2 Hrun Hsel2
               HN Hnext).
    eexists; split; [reflexivity|]. subst w1.
    cbn [recv_calls tun_written sock_in put_tun set_sock_in log_recv].
    rewrite <- !app_assoc. cbn [app].
    repeat split; unfold same_handles; cbn; auto.
Qed.

Lemma bad_length_then_next_frame_witness :
  exists w2,
    forwarding_loop LittleEndian
      [mk_iter false (SelReady true true) [];
       mk_iter false (SelReady true false) []]
      (initial_world [Avail [0; 1; 0; 0]; Avail [0; 0; 0; 2; 5; 6; 9]] []) =
      Pending w2 /\
    tun_written w2 = [[5; 6]] /\ recv_calls w2 = [4; 4; 2] /\
    sock_in w2 = [Avail [9]] /\ client_fd w2 = Opened.
Proof.
  destruct (proj2 (bad_length_then_next_frame LittleEndian
                     (mk_iter false (SelReady true true) [])
                     (mk_iter false (SelReady true false) []) true
                     (initial_world
                        [Avail [0; 1; 0; 0]; Avail [0; 0; 0; 2; 5; 6; 9]] [])
                     [0; 1; 0; 0] [] [Avail [0; 0; 0; 2; 5; 6; 9]]
                     eq_refl eq_refl ltac:(vm_compute; discriminate)
                     eq_refl eq_refl
                     ltac:(repeat constructor; unfold is_byte; lia)
                     eq_refl ltac:(right; vm_compute; reflexivity) eq_refl)
              [5; 6] [9] [])
    as (w2 & Hloop & Htun & Hcalls & Hin & _ & Hfd & _).
  - vm_compute. split; discriminate.
  - left. reflexivity.
  - exists w2. repeat split; assumption.
Defined.
